(** * The portfolio's content model: the Content Registry and the Post Collection

    A shallow embedding of [src/app/resources/content.js] (the object
    literals [person], [social] and [about.work]) and of the front-matter
    blocks of the seven MDX posts, followed by the data-integrity
    properties stated about them.  Beside the content model stand the
    calendar button of the site and the code samples that the posts carry
    in their bodies, with the properties their code shows. *)

From Stdlib Require Import ZArith Ascii String.
From stdpp Require Import base decidable option list sorting strings gmap.

Local Open Scope string_scope.
Local Open Scope Z_scope.

(** ** JavaScript template literals and JSX fragments *)

Module Js.

(** A template literal is a sequence of literal chunks and substitutions;
    every substitution of [content.js] is a string-valued expression. *)
Inductive part :=
  | Quasi (s : string)
  | Subst (s : string).

Definition part_text (p : part) : string :=
  match p with
  | Quasi s => s
  | Subst s => s
  end.

(** Evaluation: the chunks and the substituted values, left to right. *)
Fixpoint template (ps : list part) : string :=
  match ps with
  | [] => ""
  | p :: ps' => part_text p +:+ template ps'
  end.

(** A JSX fragment [<>text</>], kept as its text. *)
Inductive jsx :=
  | Fragment (text : string).

(** An object literal whose fields are all strings. *)
Definition object := gmap string string.

End Js.

(** ** The Content Registry: [src/app/resources/content.js] *)

Module Content.

Module Person.

Record t := mk {
  firstName : string;
  lastName : string;
  role : string;
  avatar : string;
  email : string;
  location : string;
  languages : list string
}.

(** [get name() { return `${this.firstName} ${this.lastName}`; }] *)
Definition name (this : t) : string :=
  Js.template [Js.Subst (firstName this); Js.Quasi " "; Js.Subst (lastName this)].

(** Assignment to the two fields the getter reads. *)
Definition set_firstName (v : string) (this : t) : t :=
  mk v (lastName this) (role this) (avatar this) (email this)
     (location this) (languages this).

Definition set_lastName (v : string) (this : t) : t :=
  mk (firstName this) v (role this) (avatar this) (email this)
     (location this) (languages this).

End Person.

Module SocialLink.

Record t := mk {
  name : string;
  icon : string;
  link : string
}.

End SocialLink.

Module WorkExperience.

(** No entry of [content.js] has an image, so the source does not fix
    the shape of one; an image is kept as an object literal. *)
Record t := mk {
  company : string;
  timeframe : string;
  role : string;
  achievements : list Js.jsx;
  images : list Js.object
}.

End WorkExperience.

Module WorkSection.

Record t := mk {
  display : bool;
  title : string;
  experiences : list WorkExperience.t
}.

End WorkSection.

(** [const person], lines 3-14. *)
Definition person : Person.t := {|
  Person.firstName := "Kevin";
  Person.lastName := "Okinedo";
  Person.role := "Software Engineer";
  Person.avatar := "/images/avatar.jpg";
  Person.email := "kokinedo@gmail.com";
  Person.location := "America/New_York";
  Person.languages := ["English"]
|}.

(** [const social], lines 27-50. *)
Definition social : list SocialLink.t := [
  {| SocialLink.name := "GitHub";
     SocialLink.icon := "github";
     SocialLink.link := "https://github.com/kokinedo" |};
  {| SocialLink.name := "LinkedIn";
     SocialLink.icon := "linkedin";
     SocialLink.link := "https://www.linkedin.com/in/kevin-okinedo-39538719b/" |};
  {| SocialLink.name := "X";
     SocialLink.icon := "x";
     SocialLink.link := "" |};
  {| SocialLink.name := "Email";
     SocialLink.icon := "email";
     SocialLink.link :=
       Js.template [Js.Quasi "mailto:"; Js.Subst (Person.email person)] |}
].

(** The five entries of [about.work.experiences], lines 97-217. *)
Import WorkExperience.

Definition splunk : WorkExperience.t := {|
  company := "Splunk Inc.";
  timeframe := "May 2023 - Present";
  role := "Senior Software Engineer";
  achievements := [
    Js.Fragment "Revamped the Anomaly application UI using React, integrating LLM-powered insights that enhanced user experience and reduced analysis time by 40%.";
    Js.Fragment "Led development of a confidential AI project utilizing LlamaIndex for RAG implementation, building the entire front-end codebase with real-time LLM interaction capabilities.";
    Js.Fragment "Implemented advanced MLOps pipelines using TensorFlow and PyTorch for fine-tuning large language models, reducing inference latency by 30% and improving model accuracy by 15%.";
    Js.Fragment "Designed scalable Node.js architecture supporting 10,000+ concurrent users with vector database integration for semantic search, achieving 50ms average response times.";
    Js.Fragment "Built real-time data processing pipeline using Kafka and Spark for LLM training data preparation, processing 100,000+ events per second for continuous model improvement."
  ];
  images := []
|}.

Definition microsoft : WorkExperience.t := {|
  company := "Microsoft Inc.";
  timeframe := "Aug 2021 - May 2023";
  role := "Software Engineer II";
  achievements := [
    Js.Fragment "Led development team building AI-enhanced software applications, implementing GPT-3 integration across Microsoft products with 100% on-time delivery record.";
    Js.Fragment "Designed ETL pipelines for training data preparation using Python and SQL, optimizing transformer model training workflows and data quality validation.";
    Js.Fragment "Enhanced search algorithms with transformer-based semantic understanding, implementing BERT models for natural language query processing and improving search relevance by 35%.";
    Js.Fragment "Developed .NET microservices for AI model serving using Azure ML, implementing efficient message queuing with RabbitMQ for distributed inference requests.";
    Js.Fragment "Architected data governance solutions on Azure for LLM training datasets, ensuring compliance and implementing automated data lineage tracking for model auditing."
  ];
  images := []
|}.

Definition asset_map : WorkExperience.t := {|
  company := "Asset-Map Inc.";
  timeframe := "Jan 2020 - Jul 2021";
  role := "Software Engineer II";
  achievements := [
    Js.Fragment "Enhanced search capabilities using Elasticsearch and Node.js with NLP preprocessing, implementing entity recognition and semantic query expansion to improve search precision by 40%.";
    Js.Fragment "Built intelligent URL validation system in Angular using machine learning models, reducing false positives by 60% and cutting support workload by 25%.";
    Js.Fragment "Developed Python-based financial simulation engine with natural language interfaces, enabling users to configure complex scenarios through conversational AI, optimizing workflow efficiency.";
    Js.Fragment "Spearheaded cloud migration from GCP to AWS, implementing containerized ML model serving with Kubernetes, Aurora databases, and infrastructure-as-code using CloudFormation.";
    Js.Fragment "Created intelligent automation scripts using Python and PowerShell with anomaly detection capabilities, reducing manual intervention by 70% through predictive maintenance algorithms."
  ];
  images := []
|}.

Definition kined_systems : WorkExperience.t := {|
  company := "Kined Systems Inc.";
  timeframe := "Mar 2017 - Nov 2019";
  role := "Software Engineer";
  achievements := [
    Js.Fragment "Developed Golang-based knowledge management platform utilizing early transformer architectures and graph neural networks for intelligent document processing and relationship extraction.";
    Js.Fragment "Implemented secure API integration layer using Java for multi-modal data processing, enabling seamless interaction between NLP models and various enterprise databases.";
    Js.Fragment "Built knowledge graph platform using Golang, Ruby on Rails, and GraphQL, incorporating word embeddings and entity linking for semantic content organization and retrieval.";
    Js.Fragment "Created intelligent data extraction agents using Golang with custom NLP pipelines, implementing named entity recognition and sentiment analysis for automated content processing.";
    Js.Fragment "Architected event-driven microservices with Spring Boot and Kafka, designing scalable infrastructure for processing millions of text documents daily with ML-powered content classification."
  ];
  images := []
|}.

Definition mckinsey : WorkExperience.t := {|
  company := "McKinsey & Company Inc.";
  timeframe := "Apr 2015 - Feb 2017";
  role := "Full Stack Developer";
  achievements := [
    Js.Fragment "Built responsive web applications using React with integrated machine learning components, implementing predictive analytics dashboards for client engagement optimization.";
    Js.Fragment "Developed internal applications using React, Angular, and Node.js with embedded ML models for text analysis, enabling automated insight generation from business documents.";
    Js.Fragment "Designed RESTful APIs in Java and C# supporting machine learning workflows, implementing efficient data pipelines for training traditional ML models on client datasets.";
    Js.Fragment "Enhanced employee learning platforms by implementing recommendation algorithms using Python and scikit-learn, personalizing content delivery and improving engagement by 25%.";
    Js.Fragment "Optimized front-end performance through intelligent caching and predictive loading algorithms, achieving 15% performance improvement in data-heavy analytical applications."
  ];
  images := []
|}.

(** [about.work], lines 94-218. *)
Definition about_work : WorkSection.t := {|
  WorkSection.display := true;
  WorkSection.title := "Work Experience";
  WorkSection.experiences :=
    [splunk; microsoft; asset_map; kined_systems; mckinsey]
|}.

End Content.

(** ** The Post Collection: the MDX files and their front-matter *)

Module Mdx.

(** A post file: where it lives under the sources and the key/value
    mapping of the block between its two [---] fences.  Every value
    is a double-quoted scalar, so a string.  The body below the block
    is opaque content and plays no part here. *)
Record MdxFile := mk {
  file : string;
  frontmatter : gmap string string
}.

(** [src/app/blog/posts/blog.mdx], front-matter lines 2-5. *)
Definition post_blog : MdxFile := {|
  file := "src/app/blog/posts/blog.mdx";
  frontmatter := {[
    "title" := "Building Production-Ready AI Applications: Architecture & Implementation";
    "summary" := "Learn to build scalable AI applications with RAG, vector databases, API design, and production deployment strategies for real-world AI systems.";
    "publishedAt" := "2025-01-22";
    "tag" := "AI Applications"
  ]}
|}.

(** [src/app/blog/posts/design.mdx], front-matter lines 2-5. *)
Definition post_design : MdxFile := {|
  file := "src/app/blog/posts/design.mdx";
  frontmatter := {[
    "title" := "Computer Vision and Multimodal AI: Beyond Text Generation";
    "summary" := "Explore advanced computer vision architectures, multimodal AI systems, and techniques for building AI that understands both visual and textual data.";
    "publishedAt" := "2025-02-02";
    "tag" := "Computer Vision"
  ]}
|}.

(** [src/app/blog/posts/quick-start.mdx], front-matter lines 2-6. *)
Definition post_quick_start : MdxFile := {|
  file := "src/app/blog/posts/quick-start.mdx";
  frontmatter := {[
    "title" := "AI Engineering Best Practices: From Research to Production";
    "summary" := "Essential practices for building robust, scalable AI systems. Learn MLOps, model deployment, monitoring, and production-ready AI engineering workflows.";
    "image" := "/images/og/home.jpg";
    "publishedAt" := "2025-01-15";
    "tag" := "AI Engineering"
  ]}
|}.

(** [src/app/blog/posts/work.mdx], front-matter lines 2-5. *)
Definition post_work : MdxFile := {|
  file := "src/app/blog/posts/work.mdx";
  frontmatter := {[
    "title" := "LLM Fine-tuning Strategies: From LoRA to Full Parameter Training";
    "summary" := "Master the art of fine-tuning large language models. Deep dive into LoRA, QLoRA, full fine-tuning, and advanced techniques for optimal performance.";
    "publishedAt" := "2025-01-18";
    "tag" := "LLM Engineering"
  ]}
|}.

(** [unnamed/part_001], front-matter lines 2-5. *)
Definition part_001 : MdxFile := {|
  file := "unnamed/part_001";
  frontmatter := {[
    "title" := "Neural Network Optimization: Advanced Techniques for AI Engineers";
    "summary" := "Master advanced optimization techniques including adaptive learning rates, gradient scaling, architecture search, and hardware-specific optimizations for neural networks.";
    "publishedAt" := "2025-01-28";
    "tag" := "Deep Learning"
  ]}
|}.

(** [unnamed/part_002], front-matter lines 2-5. *)
Definition part_002 : MdxFile := {|
  file := "unnamed/part_002";
  frontmatter := {[
    "title" := "Transformer Architectures Deep Dive: From Attention to Modern LLMs";
    "summary" := "Comprehensive exploration of transformer architectures, attention mechanisms, positional encoding, and recent innovations like RoPE and FlashAttention.";
    "publishedAt" := "2025-01-25";
    "tag" := "Deep Learning"
  ]}
|}.

(** [unnamed/part_003], front-matter lines 2-5. *)
Definition part_003 : MdxFile := {|
  file := "unnamed/part_003";
  frontmatter := {[
    "title" := "Advanced Prompt Engineering: Beyond Basic Instructions";
    "summary" := "Master sophisticated prompt engineering techniques including chain-of-thought, tree-of-thought, and context optimization for maximum LLM performance.";
    "publishedAt" := "2025-01-20";
    "tag" := "Prompt Engineering"
  ]}
|}.

(** The collection, the four named posts first. *)
Definition posts : list MdxFile :=
  [post_blog; post_design; post_quick_start; post_work;
   part_001; part_002; part_003].

Definition title (p : MdxFile) : option string := frontmatter p !! "title".
Definition summary (p : MdxFile) : option string := frontmatter p !! "summary".
Definition publishedAt (p : MdxFile) : option string :=
  frontmatter p !! "publishedAt".

End Mdx.

(** ** ISO calendar dates

    Nothing under the sources reads a date: the front-matter reader and
    the listing renderer are outside them.  This module is the reading of
    a [publishedAt] value that the spec asks for. *)

Module IsoDate.

(** Modelled from the spec: a date as its three fields. *)
Record date := mk {
  year : Z;
  month : Z;
  day : Z
}.

(** Modelled from the spec: part of reading a [YYYY-MM-DD] string, the
    value of a decimal digit, from its character code. *)
Definition digit (c : ascii) : option Z :=
  let n := Z.of_N (N_of_ascii c) in
  if (48 <=? n) && (n <=? 57) then Some (n - 48) else None.

(** Modelled from the spec: part of reading a [YYYY-MM-DD] string, the
    number a run of digits denotes, most significant digit first. *)
Fixpoint number (acc : Z) (cs : list ascii) : option Z :=
  match cs with
  | [] => Some acc
  | c :: cs' => d ← digit c; number (10 * acc + d) cs'
  end.

(** Modelled from the spec: the separator of [YYYY-MM-DD]. *)
Definition is_dash (c : ascii) : bool := bool_decide (c = "-"%char).

(** Modelled from the spec: the front-matter reader is not among the
    sources; the spec gives the date format as [YYYY-MM-DD].  [fields]
    reads the three numbers off a string of exactly that shape. *)
Definition fields (s : string) : option date :=
  match list_ascii_of_string s with
  | [y1; y2; y3; y4; s1; m1; m2; s2; d1; d2] =>
      if is_dash s1 && is_dash s2 then
        y ← number 0 [y1; y2; y3; y4];
        m ← number 0 [m1; m2];
        d ← number 0 [d1; d2];
        Some (mk y m d)
      else None
  | _ => None
  end.

(** Modelled from the spec: "an ISO date string ([YYYY-MM-DD])". *)
Definition iso_shape (s : string) : bool := bool_decide (is_Some (fields s)).

(** Modelled from the spec: the leap years of the Gregorian calendar,
    which "a valid calendar date" refers to. *)
Definition is_leap (y : Z) : bool :=
  (y mod 4 =? 0) && (negb (y mod 100 =? 0) || (y mod 400 =? 0)).

(** Modelled from the spec: the length of month [m] of year [y]. *)
Definition days_in_month (y m : Z) : Z :=
  if m =? 2 then (if is_leap y then 29 else 28)
  else if (m =? 4) || (m =? 6) || (m =? 9) || (m =? 11) then 30
  else 31.

(** Modelled from the spec: "a valid calendar date", a day that exists
    in the Gregorian calendar. *)
Definition valid (d : date) : bool :=
  (1 <=? month d) && (month d <=? 12) &&
  (1 <=? day d) && (day d <=? days_in_month (year d) (month d)).

(** Modelled from the spec: a [publishedAt] value "parses as a valid
    calendar date" when it has the ISO shape and names a day that
    exists. *)
Definition parse (s : string) : option date :=
  d ← fields s; if valid d then Some d else None.

(** Modelled from the spec: "chronological" order is the order of the
    days counted from a fixed day.  Day counting takes the year to begin
    in March, so that the leap day comes last: January and February
    belong to the year before. *)
Definition march_year (d : date) : Z :=
  if month d <=? 2 then year d - 1 else year d.

(** Modelled from the spec: the month counted from March, 0 to 11. *)
Definition march_month (d : date) : Z :=
  if month d <=? 2 then month d + 9 else month d - 3.

(** Modelled from the spec: days from 1 March to the date, within its
    March year. *)
Definition day_of_march_year (d : date) : Z :=
  (153 * march_month d + 2) / 5 + day d - 1.

(** Modelled from the spec: days from 1 March of year 0 to 1 March of
    year [y], by 400-year cycles of 146097 days. *)
Definition days_before_march (y : Z) : Z :=
  let era := y / 400 in
  let yoe := y - era * 400 in
  era * 146097 + yoe * 365 + yoe / 4 - yoe / 100.

(** Modelled from the spec: days elapsed since 1970-01-01. *)
Definition day_number (d : date) : Z :=
  days_before_march (march_year d) + day_of_march_year d - 719468.

(** Modelled from the spec: the "chronological" order of two dates. *)
Definition chronological (d e : date) : comparison :=
  day_number d ?= day_number e.

(** Modelled from the spec: [d] is earlier than [e], field by field. *)
Definition lt_fields (d e : date) : Prop :=
  year d < year e ∨
  (year d = year e ∧
   (month d < month e ∨ (month d = month e ∧ day d < day e))).

(** Modelled from the spec: the order of two dates read field by field,
    year, then month, then day. *)
Definition compare_fields (d e : date) : comparison :=
  match year d ?= year e with
  | Eq => match month d ?= month e with
          | Eq => day d ?= day e
          | c => c
          end
  | c => c
  end.

End IsoDate.

(** ** Post enumeration

    The listing renderer is outside the sources; this module is the
    enumeration "sorted by [publishedAt] descending" of the spec. *)

Module Listing.
Import Mdx.

(** Modelled from the spec: the day a post was published, when its
    front-matter says so. *)
Definition published (p : MdxFile) : option Z :=
  s ← publishedAt p; d ← IsoDate.parse s; Some (IsoDate.day_number d).

(** Modelled from the spec: [older_eq a b], [a] is no later than [b].
    The spec leaves undated posts open; here one counts as older than
    every dated post. *)
Definition older_eq (a b : option Z) : bool :=
  match a, b with
  | None, _ => true
  | Some _, None => false
  | Some x, Some y => x <=? y
  end.

(** Modelled from the spec: "by [publishedAt], descending"; [p] may
    stand before [q]. *)
Definition newer_eq (p q : MdxFile) : Prop := older_eq (published q) (published p).

Global Instance newer_eq_dec : RelDecision newer_eq.
Proof. intros p q. unfold newer_eq. apply _. Defined.

Section insertion_sort.
Context {A : Type} (R : relation A) `{!RelDecision R}.

(** Modelled from the spec: the sort, as a stable insertion sort.
    [x] goes in front of the first element it may stand before, so
    it stays ahead of its equals. *)
Fixpoint insert_by (x : A) (l : list A) : list A :=
  match l with
  | [] => [x]
  | y :: l' => if decide (R x y) then x :: l else y :: insert_by x l'
  end.

(** Modelled from the spec: the sort of a list, last element first. *)
Definition sort_by : list A → list A := foldr insert_by [].
End insertion_sort.

(** Modelled from the spec: the listing renderer is not among the
    sources; the spec has it produce the posts "sorted by [publishedAt]
    descending". *)
Definition sort_posts : list MdxFile → list MdxFile := sort_by newer_eq.

(** Modelled from the spec: the "lexicographic" comparison of two
    posts, their [publishedAt] strings code unit by code unit. *)
Definition compare_lexicographic (p q : MdxFile) : option comparison :=
  s ← publishedAt p; t ← publishedAt q; Some (String.compare s t).

(** Modelled from the spec: the "chronological" comparison of two
    posts, as the dates their [publishedAt] strings denote. *)
Definition compare_chronological (p q : MdxFile) : option comparison :=
  s ← publishedAt p; t ← publishedAt q;
  d ← IsoDate.parse s; e ← IsoDate.parse t;
  Some (IsoDate.chronological d e).

(** Modelled from the spec: "returns the 2025-02-02 post first"; [a]
    stands at an earlier position than [b]. *)
Definition appears_before {A} (a b : A) (l : list A) : Prop :=
  ∃ i j : nat, (i < j)%nat ∧ l !! i = Some a ∧ l !! j = Some b.

End Listing.

(** * Code beside the content model

    The calendar button of the site and the code samples that the posts
    carry in their bodies. *)

(** ** [CalendarButton], [unnamed/part_000] *)

Module CalendarButton.

(** A value of a style property or of an attribute. *)
Inductive value :=
  | Str (s : string)
  | Num (n : Z)
  | Bool (b : bool)
  | Undefined.

(** [React.CSSProperties] *)
Abbreviation CSSProperties := (gmap string value).

(** The parts of an object literal: [key: value] and [...source]; an
    [undefined] source spreads nothing. *)
Inductive property :=
  | Field (key : string) (v : value)
  | Spread (source : option CSSProperties).

(** The parts are evaluated left to right, a later one overwriting the
    keys it shares with the earlier ones. *)
Definition object_literal (properties : list property) : CSSProperties :=
  foldl (λ object p,
           match p with
           | Field key v => <[key := v]> object
           | Spread (Some source) => source ∪ object
           | Spread None => object
           end) ∅ properties.

Record CalendarButtonProps := mk {
  className : option string;
  style : option CSSProperties
}.

(** A JSX element: its attributes in the order written, the [style]
    attribute apart, and its children. *)
#[warnings="-register-all"]
Inductive element :=
  | Element (tag : string) (attributes : list (string * value))
      (style_attribute : option CSSProperties) (children : list element)
  | Text (s : string).

(** The double quote. *)
Definition dq : string := String "034" EmptyString.

(** What the component returns (the call to the calendar API it makes
    once mounted is an effect and not part of the element). *)
Definition CalendarButton (props : CalendarButtonProps) : element :=
  Element "Flex"
    [("fitWidth", Bool true);
     ("border", Str "brand-alpha-medium");
     ("className", from_option Str Undefined (className props));
     ("background", Str "brand-alpha-weak");
     ("radius", Str "full");
     ("padding", Str "4");
     ("gap", Str "8");
     ("marginBottom", Str "m");
     ("vertical", Str "center");
     ("data-cal-namespace", Str "30min");
     ("data-cal-link", Str "kevinokinedo/30min");
     ("data-cal-config",
      Str ("{" +:+ dq +:+ "layout" +:+ dq +:+ ":" +:+ dq +:+ "month_view"
           +:+ dq +:+ "}"));
     ("role", Str "button");
     ("tabIndex", Num 0)]
    (Some (object_literal
             [Field "cursor" (Str "pointer");
              Field "backdropFilter" (Str "blur(var(--static-space-1))");
              Spread (style props)]))
    [Element "Icon"
       [("paddingLeft", Str "12"); ("name", Str "calendar");
        ("onBackground", Str "brand-weak")] None [];
     Element "Flex" [("paddingX", Str "8")] None [Text "Schedule a call"];
     Element "IconButton"
       [("data-border", Str "rounded"); ("variant", Str "secondary");
        ("icon", Str "chevronRight")] None []].

(** The style an element carries. *)
Definition style_of (e : element) : CSSProperties :=
  match e with
  | Element _ _ (Some s) _ => s
  | _ => ∅
  end.

End CalendarButton.

(** ** [ContextManager], the "Context Management" sample of
    [unnamed/part_003], lines 180-205 *)

Module ContextManager.

Section with_encoding.
(** [self.encoding], the tokenizer [tiktoken] hands out for the model. *)
Context {Token : Type} (encode : string → list Token).

Record t := mk {
  max_tokens : Z;
  reserved_tokens : Z
}.

(** [__init__(self, model_name="gpt-4", max_tokens=8192)]: 1000 tokens are
    reserved for the response. *)
Definition init (max_tokens : Z) : t := mk max_tokens 1000.

(** [count_tokens]: [len(self.encoding.encode(text))]. *)
Definition count_tokens (text : string) : Z := Z.of_nat (length (encode text)).

(** The [for message in reversed(conversation_history)] loop: [messages]
    are those still to visit, newest first; [insert(0, message)] puts a
    message in front of the kept ones; the [else] branch breaks. *)
Fixpoint truncate_loop (available_tokens : Z) (messages : list string)
    (truncated_history : list string) (total_history_tokens : Z) : list string :=
  match messages with
  | [] => truncated_history
  | message :: messages' =>
      let message_tokens := count_tokens message in
      if total_history_tokens + message_tokens <=? available_tokens
      then truncate_loop available_tokens messages'
             (message :: truncated_history)
             (total_history_tokens + message_tokens)
      else truncated_history
  end.

Definition available_tokens (self : t) (system_prompt current_prompt : string) : Z :=
  max_tokens self - count_tokens system_prompt - count_tokens current_prompt
  - reserved_tokens self.

Definition truncate_context (self : t) (system_prompt : string)
    (conversation_history : list string) (current_prompt : string)
    : string * list string * string :=
  (system_prompt,
   truncate_loop (available_tokens self system_prompt current_prompt)
     (reverse conversation_history) [] 0,
   current_prompt).

(** Tokens of a run of messages. *)
Definition history_tokens (messages : list string) : Z :=
  foldr (λ m n, count_tokens m + n) 0 messages.

End with_encoding.
End ContextManager.

(** ** [SelfConsistencyPrompt.find_consensus], the "Self-Consistency
    Implementation" sample of [unnamed/part_003], lines 436-445 *)

Module SelfConsistencyPrompt.

Inductive exn :=
  | IndexError.

(** [Counter]: one more for [x]; a new answer goes last, so the answers
    stay in the order they were first seen. *)
Fixpoint counter_add (x : string) (counts : list (string * Z))
    : list (string * Z) :=
  match counts with
  | [] => [(x, 1)]
  | (y, n) :: counts' =>
      if decide (x = y) then (y, n + 1) :: counts'
      else (y, n) :: counter_add x counts'
  end.

(** [Counter(answers)] *)
Definition Counter (answers : list string) : list (string * Z) :=
  foldl (λ counts x, counter_add x counts) [] answers.

(** [max(items, key=itemgetter(1))]: the first item with the greatest
    count. *)
Fixpoint max_count (best : string * Z) (items : list (string * Z))
    : string * Z :=
  match items with
  | [] => best
  | item :: items' => max_count (if best.2 <? item.2 then item else best) items'
  end.

(** [most_common(1)]: empty for an empty counter. *)
Definition most_common_1 (counts : list (string * Z)) : list (string * Z) :=
  match counts with
  | [] => []
  | item :: items => [max_count item items]
  end.

Section with_floats.
(** [true_div a b] is the float [a / b]. *)
Context {Float : Type} (true_div : Z → Z → Float).

Definition find_consensus (answers : list string) : exn + (string * Float) :=
  let answer_counts := Counter answers in
  match most_common_1 answer_counts with
  | [] => inl IndexError
  | most_common :: _ =>
      let confidence := true_div most_common.2 (Z.of_nat (length answers)) in
      inr (most_common.1, confidence)
  end.

End with_floats.

(** How often [a] is among [answers]. *)
Definition votes (a : string) (answers : list string) : Z :=
  Z.of_nat (length (filter (λ x, x = a) answers)).

(** The count a counter holds for [a], 0 when it has none. *)
Fixpoint count_of (counts : list (string * Z)) (a : string) : Z :=
  match counts with
  | [] => 0
  | (y, n) :: counts' => if decide (a = y) then n else count_of counts' a
  end.

End SelfConsistencyPrompt.

(** ** [ConnectionManager], the "WebSocket Streaming" sample of
    [src/app/blog/posts/blog.mdx], lines 526-548 *)

Module ConnectionManager.

(** [list.remove(x)]: drops the first element equal to [x]; [None] stands
    for the [ValueError] raised when there is none. *)
Fixpoint list_remove {A} `{EqDecision A} (x : A) (l : list A) : option (list A) :=
  match l with
  | [] => None
  | y :: l' => if decide (x = y) then Some l' else (y ::.) <$> list_remove x l'
  end.

Inductive exn :=
  | ValueError.

Section with_sockets.
(** Sockets are compared by identity; [Time] is what [datetime.now()]
    returns. *)
Context {WebSocket Time : Type} `{EqDecision WebSocket}.

(** What the manager asks of a socket. *)
Inductive event :=
  | Accept (websocket : WebSocket)
  | SendText (websocket : WebSocket) (message : string).

Record session := mk_session {
  websocket : WebSocket;
  conversation_history : list string;
  connected_at : Time
}.

Record t := mk {
  active_connections : list WebSocket;
  user_sessions : gmap string session
}.

(** [__init__] *)
Definition init : t := mk [] ∅.

(** [connect]: accept the socket, append it, and (over)write the user's
    session. *)
Definition connect (ws : WebSocket) (user_id : string) (now : Time) (self : t)
    : t * list event :=
  (mk (active_connections self ++ [ws])%list
      (<[user_id := mk_session ws [] now]> (user_sessions self)),
   [Accept ws]).

(** [disconnect]: [remove] comes first, so when it raises the sessions are
    left as they were. *)
Definition disconnect (ws : WebSocket) (user_id : string) (self : t) : exn + t :=
  match list_remove ws (active_connections self) with
  | None => inl ValueError
  | Some connections =>
      inr (mk connections
             (if decide (is_Some (user_sessions self !! user_id))
              then delete user_id (user_sessions self)
              else user_sessions self))
  end.

(** [send_personal_message] *)
Definition send_personal_message (message : string) (user_id : string) (self : t)
    : list event :=
  match user_sessions self !! user_id with
  | Some s => [SendText (websocket s) message]
  | None => []
  end.

(** Every session's socket is among the active connections. *)
Definition sessions_active (self : t) : Prop :=
  ∀ user_id s, user_sessions self !! user_id = Some s →
    websocket s ∈ active_connections self.

End with_sockets.
End ConnectionManager.

(** ** [OptimizedVectorStore], the "Optimized Vector Store" sample of
    [src/app/blog/posts/blog.mdx], lines 206-276 *)

Module OptimizedVectorStore.

Inductive exn :=
  | AttributeError.

Section with_faiss.
(** [Vector] is a row of an embeddings array, [Distance] what the index
    reports for a hit, [Doc] a document (a [dict]). *)
Context {Vector Distance Doc : Type}.

(** A FAISS index, as the calls that built it. *)
Inductive index :=
  | IndexFlatL2 (d : Z)
  | IndexIVFFlat (quantizer : index) (d : Z) (nlist : Z)
  | IndexHNSWFlat (d : Z) (M : Z)
  | SetEfConstruction (i : index) (v : Z)
  | SetEfSearch (i : index) (v : Z)
  | Train (i : index) (embeddings : list Vector)
  | AddWithIds (i : index) (embeddings : list Vector) (ids : list Z).

(** What the sample leaves to its libraries: [index.is_trained],
    [index.search] (the first row of distances and of indices, paired),
    [astype(np.float32)] on a row, [float(distance)], and the truth value
    of a document. *)
Context (is_trained : index → bool)
        (index_search : index → Vector → Z → list (Distance * Z))
        (astype_float32 : Vector → Vector)
        (float : Distance → Distance)
        (truthy : Doc → bool).

Record t := mk {
  dimension : Z;
  index_type : string;
  index_ : option index;
  document_store : gmap Z Doc;
  id_counter : Z
}.

(** [__init__(self, dimension: int = 1536, index_type: str = "IVF")] *)
Definition init (dimension : Z) (index_type : string) : t :=
  mk dimension index_type None ∅ 0.

(** The index [create_index] builds. *)
Definition new_index (num_clusters : option Z) (self : t) : index :=
  if decide (index_type self = "IVF") then
    let num_clusters :=
      match num_clusters with
      | None => Z.min 4096 (Z.max 4 (id_counter self / 1000))
      | Some n => n
      end in
    IndexIVFFlat (IndexFlatL2 (dimension self)) (dimension self) num_clusters
  else if decide (index_type self = "HNSW") then
    SetEfSearch (SetEfConstruction (IndexHNSWFlat (dimension self) 32) 40) 32
  else IndexFlatL2 (dimension self).

(** [create_index(self, num_clusters: int = None)] *)
Definition create_index (num_clusters : option Z) (self : t) : t :=
  mk (dimension self) (index_type self) (Some (new_index num_clusters self))
     (document_store self) (id_counter self).

(** [np.arange(start, stop)] *)
Definition arange (start stop : Z) : list Z := seqZ start (stop - start).

(** [for i, doc in enumerate(documents): self.document_store[start_id + i] = doc] *)
Fixpoint store_documents (start_id : Z) (documents : list Doc)
    (store : gmap Z Doc) : gmap Z Doc :=
  match documents with
  | [] => store
  | doc :: documents' =>
      store_documents (start_id + 1) documents' (<[start_id := doc]> store)
  end.

(** [add_embeddings(self, embeddings, documents)] *)
Definition add_embeddings (embeddings : list Vector) (documents : list Doc)
    (self : t) : t :=
  let self := match index_ self with
              | None => create_index None self
              | Some _ => self
              end in
  let index0 := default (new_index None self) (index_ self) in
  let index1 :=
    if bool_decide (index_type self = "IVF") && negb (is_trained index0)
    then Train index0 embeddings else index0 in
  let start_id := id_counter self in
  let index2 :=
    AddWithIds index1 (astype_float32 <$> embeddings)
      (arange start_id (start_id + Z.of_nat (length embeddings))) in
  mk (dimension self) (index_type self) (Some index2)
     (store_documents start_id documents (document_store self))
     (id_counter self + Z.of_nat (length embeddings)).

(** [search(self, query_embedding, top_k=5)]; without an index the
    attribute lookup on [None] fails. *)
Definition search (query_embedding : Vector) (top_k : Z) (self : t)
    : exn + list (Doc * Distance) :=
  match index_ self with
  | None => inl AttributeError
  | Some i =>
      inr (omap (λ '(distance, idx),
             if decide (idx ≠ -1) then
               match document_store self !! idx with
               | Some doc => if truthy doc then Some (doc, float distance) else None
               | None => None
               end
             else None)
           (index_search i (astype_float32 query_embedding) top_k))
  end.

(** The ids an index was given, in the order they were added. *)
Fixpoint added_ids (i : index) : list Z :=
  match i with
  | IndexFlatL2 _ | IndexIVFFlat _ _ _ | IndexHNSWFlat _ _ => []
  | SetEfConstruction i _ | SetEfSearch i _ | Train i _ => added_ids i
  | AddWithIds i _ ids => added_ids i ++ ids
  end.

(** The number of clusters an index was created with, if it has any. *)
Fixpoint clusters (i : index) : option Z :=
  match i with
  | IndexIVFFlat _ _ nlist => Some nlist
  | IndexFlatL2 _ | IndexHNSWFlat _ _ => None
  | SetEfConstruction i _ | SetEfSearch i _ | Train i _ | AddWithIds i _ _ =>
      clusters i
  end.

(** A run of calls to [add_embeddings], one per batch. *)
Definition add_batches (batches : list (list Vector * list Doc)) (self : t) : t :=
  foldl (λ s batch, add_embeddings batch.1 batch.2 s) self batches.

(** Every stored document sits under an id that was handed out. *)
Definition ids_in_range (self : t) : Prop :=
  0 ≤ id_counter self ∧
  ∀ k, is_Some (document_store self !! k) → 0 ≤ k < id_counter self.

End with_faiss.
End OptimizedVectorStore.

(** ** [CosineAnnealingWarmRestarts], the "Learning Rate Schedulers" sample
    of [unnamed/part_001], lines 142-179 *)

Module CosineAnnealingWarmRestarts.

Section with_floats.
(** Learning rates are Python floats; the two float expressions of
    [get_lr] are kept as they are applied:
    [anneal eta_min base_lr T_cur T_i] is
    [eta_min + (base_lr - eta_min) * (1 + math.cos(math.pi * T_cur / T_i)) / 2]
    and [anneal_end eta_min base_lr] is
    [eta_min + (base_lr - eta_min) * (1 + math.cos(math.pi)) / 2]. *)
Context {F : Type}.
Context (anneal : F → F → Z → Z → F) (anneal_end : F → F → F).

(** The scheduler, with the ['lr'] of each of the optimizer's parameter
    groups. *)
Record t := mk {
  param_groups : list F;
  T_0 : Z;
  T_i : Z;
  T_mult : Z;
  eta_min : F;
  last_epoch : Z;
  T_cur : Z;
  base_lrs : list F
}.

(** [__init__(self, optimizer, T_0, T_mult=1, eta_min=0, last_epoch=-1)] *)
Definition init (optimizer : list F) (T_0 T_mult : Z) (eta_min : F)
    (last_epoch : Z) : t :=
  mk optimizer T_0 T_0 T_mult eta_min last_epoch last_epoch optimizer.

Definition get_lr (self : t) : list F :=
  if T_cur self =? -1 then base_lrs self
  else if T_cur self <? T_i self then
    (λ base_lr, anneal (eta_min self) base_lr (T_cur self) (T_i self))
      <$> base_lrs self
  else anneal_end (eta_min self) <$> base_lrs self.

(** [for param_group, lr in zip(groups, lrs): param_group['lr'] = lr]:
    [zip] stops at the shorter list. *)
Fixpoint assign_lrs (groups lrs : list F) : list F :=
  match groups, lrs with
  | _ :: groups', lr :: lrs' => lr :: assign_lrs groups' lrs'
  | _, _ => groups
  end.

(** [step(self, epoch=None)] *)
Definition step (epoch : option Z) (self : t) : t :=
  let epoch := default (last_epoch self + 1) epoch in
  let T_cur1 := T_cur self + 1 in
  let restart := T_cur1 >=? T_i self in
  let T_cur2 := if restart then T_cur1 - T_i self else T_cur1 in
  let T_i2 := if restart then T_i self * T_mult self else T_i self in
  let self2 :=
    mk (param_groups self) (T_0 self) T_i2 (T_mult self) (eta_min self)
       epoch T_cur2 (base_lrs self) in
  mk (assign_lrs (param_groups self2) (get_lr self2)) (T_0 self2) (T_i self2)
     (T_mult self2) (eta_min self2) (last_epoch self2) (T_cur self2)
     (base_lrs self2).

(** A run of calls to [step], one per element of [epochs]. *)
Definition steps (epochs : list (option Z)) (self : t) : t :=
  foldl (λ s epoch, step epoch s) self epochs.

End with_floats.
End CosineAnnealingWarmRestarts.

(** ** [EfficientNet], the "EfficientNet" sample of
    [src/app/blog/posts/design.mdx], lines 213-259, and the constructor of
    [MBConvBlock], lines 273-277 and 311 *)

Module EfficientNet.

Section with_floats.
(** The coefficients are Python floats.  [falsy w] is [not w];
    [scaled_filters filters w] is [int((filters * w + 4) // 8)];
    [scaled_repeats repeats d] is [int(repeats * d)]; [quarter] is [0.25]. *)
Context {Float : Type}.
Context (falsy : Float → bool)
        (scaled_filters : Z → Float → Z)
        (scaled_repeats : Z → Float → Z)
        (quarter : Float).

Definition _round_filters (filters : Z) (width_coefficient : Float) : Z :=
  if falsy width_coefficient then filters
  else scaled_filters filters width_coefficient * 8.

Definition _round_repeats (repeats : Z) (depth_coefficient : Float) : Z :=
  if falsy depth_coefficient then repeats
  else scaled_repeats repeats depth_coefficient.

(** An [MBConvBlock], as the arguments it was built from and the two
    attributes its constructor computes from them; its layers are not
    kept. *)
Record MBConvBlock := mk {
  in_channels : Z;
  out_channels : Z;
  kernel_size : Z;
  stride : Z;
  expansion_ratio : Z;
  se_ratio : Float;
  use_residual : bool
}.

(** [MBConvBlock(in_channels, out_channels, kernel_size, stride,
    expansion_ratio, se_ratio)] *)
Definition new_block (in_channels out_channels kernel_size stride
    expansion_ratio : Z) (se_ratio : Float) : MBConvBlock :=
  mk in_channels out_channels kernel_size stride expansion_ratio se_ratio
     ((stride =? 1) && (in_channels =? out_channels)).

(** [(kernel_size, in_channels, out_channels, exp_ratio, stride, repeats)] *)
Definition blocks_args : list (Z * Z * Z * Z * Z * Z) :=
  [(3, 32, 16, 1, 1, 1);
   (3, 16, 24, 6, 2, 2);
   (5, 24, 40, 6, 2, 2);
   (3, 40, 80, 6, 2, 3);
   (5, 80, 112, 6, 1, 3);
   (5, 112, 192, 6, 2, 4);
   (3, 192, 320, 6, 1, 1)].

(** One turn of the outer loop: the first block, then [num_repeats - 1]
    more ([range] of a number below 1 is empty). *)
Definition stage_blocks (width_coefficient depth_coefficient : Float)
    (args : Z * Z * Z * Z * Z * Z) : list MBConvBlock :=
  let '(kernel_size, in_ch, out_ch, exp_ratio, stride, repeats) := args in
  let in_channels := _round_filters in_ch width_coefficient in
  let out_channels := _round_filters out_ch width_coefficient in
  let num_repeats := _round_repeats repeats depth_coefficient in
  new_block in_channels out_channels kernel_size stride exp_ratio quarter
  :: replicate (Z.to_nat (num_repeats - 1))
       (new_block out_channels out_channels kernel_size 1 exp_ratio quarter).

Definition _make_blocks (width_coefficient depth_coefficient : Float)
    : list MBConvBlock :=
  concat (stage_blocks width_coefficient depth_coefficient <$> blocks_args).

(** Blocks that fit one after the other: fed [a] channels, each block
    takes what the one before gives, and the last gives [b]. *)
Inductive chain : Z → list MBConvBlock → Z → Prop :=
  | chain_one (block : MBConvBlock) :
      chain (in_channels block) [block] (out_channels block)
  | chain_cons (block : MBConvBlock) (blocks : list MBConvBlock) (b : Z) :
      chain (out_channels block) blocks b →
      chain (in_channels block) (block :: blocks) b.

End with_floats.
End EfficientNet.

(** ** [SafetyMonitor], the "Safety and Robustness" sample in
    [src/app/blog/posts/quick-start.mdx], lines 764-827 *)

Module SafetyMonitor.

Section with_floats.
(** Confidences are Python floats, inputs are tensors.  [float_lt a b] is
    [a < b]; [default_min_confidence] is [0.7]; [drift_exceeds recent
    historical] is [abs(np.mean(recent) - np.mean(historical)) > 0.1];
    [_is_outlier] is the method of that name, which only computes on its
    tensor; [inf_tensor] is [torch.tensor(float('inf'))]. *)
Context {Float Input Prediction Tensor : Type}.
Context (float_lt : Float → Float → bool)
        (default_min_confidence : Float)
        (drift_exceeds : list Float → list Float → bool)
        (_is_outlier : Input → bool)
        (inf_tensor : Tensor).

(** An entry of [prediction_history]. *)
Record entry := mk_entry {
  confidence : Float;
  prediction : Prediction;
  timestamp : Tensor
}.

Record t := mk {
  safety_thresholds : gmap string Float;
  prediction_history : list entry
}.

Record report := mk_report {
  safe : bool;
  warnings : list string;
  actions_required : list string
}.

(** [__init__(self, model, safety_thresholds)]; the model is never used. *)
Definition init (safety_thresholds : gmap string Float) : t :=
  mk safety_thresholds [].

(** [l[-n:]] for [n > 0]: the last [n] elements, all of a shorter list. *)
Definition last_n {A} (n : nat) (l : list A) : list A :=
  drop (length l - n) l.

(** [l[-n:-m]] for [n > m > 0]: the last [n] elements without the last [m]. *)
Definition last_n_but_m {A} (n m : nat) (l : list A) : list A :=
  take (length l - m - (length l - n)) (drop (length l - n) l).

Definition _detect_data_drift (self : t) (input_data : Input) : bool :=
  if Z.of_nat (length (prediction_history self)) <? 100 then false
  else
    let recent_confidences :=
      confidence <$> last_n 50 (prediction_history self) in
    let historical_confidences :=
      confidence <$> last_n_but_m 100 50 (prediction_history self) in
    drift_exceeds recent_confidences historical_confidences.

(** [safety_check]: the report, and the monitor with one more entry in its
    history. *)
Definition safety_check (input_data : Input) (p : Prediction) (c : Float)
    (self : t) : report * t :=
  let r0 := mk_report true [] [] in
  let r1 :=
    if float_lt c (default default_min_confidence
                     (safety_thresholds self !! "min_confidence"))
    then mk_report (safe r0)
           (warnings r0 ++ ["Low prediction confidence"])%list
           (actions_required r0 ++ ["Manual review recommended"])%list
    else r0 in
  let r2 :=
    if _detect_data_drift self input_data
    then mk_report false
           (warnings r1 ++ ["Data drift detected"])%list
           (actions_required r1 ++ ["Model retraining may be required"])%list
    else r1 in
  let r3 :=
    if _is_outlier input_data
    then mk_report (safe r2)
           (warnings r2 ++ ["Input appears to be an outlier"])%list
           (actions_required r2 ++ ["Additional validation recommended"])%list
    else r2 in
  (r3,
   mk (safety_thresholds self)
      (prediction_history self ++ [mk_entry c p inf_tensor])%list).

(** A run of checks, one per call: the reports in order, and the monitor
    after the last. *)
Fixpoint safety_checks (calls : list (Input * Prediction * Float)) (self : t)
    : list report * t :=
  match calls with
  | [] => ([], self)
  | (input_data, p, c) :: calls' =>
      let '(r, self') := safety_check input_data p c self in
      let '(rs, self'') := safety_checks calls' self' in
      (r :: rs, self'')
  end.

End with_floats.
End SafetyMonitor.

(** ** [Cell], the DARTS sample of [unnamed/part_001], lines 422-459 *)

Module Cell.

Inductive exn :=
  | IndexError.

(** The two preprocessing layers, as the calls that build them. *)
Inductive preprocess :=
  | FactorizedReduce (C_in C_out : Z)
  | ReLUConvBN (C_in C_out kernel_size stride padding : Z).

(** [MixedOp(C, stride, PRIMITIVES)] *)
Record MixedOp := mk_op {
  op_C : Z;
  op_stride : Z
}.

Record t := mk {
  reduction : bool;
  preprocess0 : preprocess;
  preprocess1 : preprocess;
  _steps : Z;
  _multiplier : Z;
  _ops : list MixedOp
}.

(** [for j in range(2 + i)]: the ops of step [i]. *)
Definition step_ops (C : Z) (reduction : bool) (i : nat) : list MixedOp :=
  (λ j : nat,
     mk_op C (if reduction && bool_decide (j < 2)%nat then 2 else 1))
  <$> seq 0 (2 + i).

(** [__init__(self, steps, multiplier, C_prev_prev, C_prev, C, reduction,
    reduction_prev)] *)
Definition init (steps multiplier C_prev_prev C_prev C : Z)
    (reduction reduction_prev : bool) : t :=
  mk reduction
     (if reduction_prev then FactorizedReduce C_prev_prev C
      else ReLUConvBN C_prev_prev C 1 1 0)
     (ReLUConvBN C_prev C 1 1 0)
     steps multiplier
     (concat (step_ops C reduction <$> seq 0 (Z.to_nat steps))).

(** The rows of [weights] the loop reads in [steps] turns when it starts
    with [n] states: [n], then [n + 1], and so on. *)
Fixpoint rows_read (steps n : nat) : nat :=
  match steps with
  | O => O
  | S steps' => n + rows_read steps' (S n)
  end.

Section with_tensors.
(** States are tensors and [weights] is indexed by row.  [run_preprocess]
    and [run_op] apply a layer and a mixed op; [tensor_sum] is [sum] over
    the terms of a step and [cat] is [torch.cat(..., dim=1)]. *)
Context {Tensor Weight : Type}.
Context (run_preprocess : preprocess → Tensor → Tensor)
        (run_op : MixedOp → Tensor → Weight → Tensor)
        (tensor_sum : list Tensor → Tensor)
        (cat : list Tensor → Tensor).

(** The generator of a step: the term for each state [h] at position [j],
    [self._ops[offset + j](h, weights[offset + j])]. *)
Fixpoint step_terms (ops : list MixedOp) (weights : list Weight)
    (offset : nat) (states : list Tensor) : exn + list Tensor :=
  match states with
  | [] => inr []
  | h :: states' =>
      match ops !! offset, weights !! offset with
      | Some op, Some w =>
          match step_terms ops weights (S offset) states' with
          | inr terms => inr (run_op op h w :: terms)
          | inl e => inl e
          end
      | _, _ => inl IndexError
      end
  end.

(** The loop [for i in range(self._steps)], with [steps] turns to go. *)
Fixpoint forward_loop (steps : nat) (ops : list MixedOp)
    (weights : list Weight) (offset : nat) (states : list Tensor)
    : exn + list Tensor :=
  match steps with
  | O => inr states
  | S steps' =>
      match step_terms ops weights offset states with
      | inr terms =>
          forward_loop steps' ops weights (offset + length states)
            (states ++ [tensor_sum terms])%list
      | inl e => inl e
      end
  end.

(** [states[-m:]]: the last [m] states for [m > 0], all of them for
    [m = 0], and all but the first [-m] for [m < 0]. *)
Definition slice_from_minus {A} (m : Z) (l : list A) : list A :=
  if m =? 0 then l
  else if 0 <? m then drop (length l - Z.to_nat m) l
  else drop (Z.to_nat (- m)) l.

(** [forward(self, s0, s1, weights)] *)
Definition forward (self : t) (s0 s1 : Tensor) (weights : list Weight)
    : exn + Tensor :=
  let s0 := run_preprocess (preprocess0 self) s0 in
  let s1 := run_preprocess (preprocess1 self) s1 in
  match forward_loop (Z.to_nat (_steps self)) (_ops self) weights 0 [s0; s1] with
  | inr states => inr (cat (slice_from_minus (_multiplier self) states))
  | inl e => inl e
  end.

End with_tensors.
End Cell.

(** ** The second document in [src/app/blog/posts/quick-start.mdx] *)

Module Embedded.
Import Mdx.

(** After its own text, which ends on line 178 with a separator, the file
    [quick-start.mdx] carries a second document, with a metadata block of
    its own on lines 178-183.  This is that block, read as the
    front-matter of a post. *)
Definition ai_ethics : MdxFile := {|
  file := "src/app/blog/posts/quick-start.mdx";
  frontmatter := {[
    "title" := "AI Ethics and Safety: Responsible AI Development";
    "summary" := "Essential principles and practices for building ethical AI systems, including bias mitigation, fairness, transparency, and safety considerations.";
    "publishedAt" := "2025-01-30";
    "tag" := "AI Ethics"
  ]}
|}.

(** The seven posts and the second document of [quick-start.mdx]. *)
Definition posts_and_embedded : list MdxFile := (posts ++ [ai_ethics])%list.

End Embedded.

(** * Properties *)

Import Mdx Listing.

(** ** Helper tactics *)

(** Case analysis on membership in a list written out in full. *)
Ltac each_member H :=
  repeat (apply elem_of_cons in H as [->|H]);
  [..|by apply elem_of_nil in H].

(** Membership of a named element in such a list. *)
Ltac member_of_list :=
  solve [repeat first [apply list_elem_of_here | apply list_elem_of_further]].

(** ** Template literals *)

Lemma string_app_empty_r (s : string) : s +:+ "" = s.
Proof.
  induction s as [|c s IH]; [done|].
  change (String c (s +:+ "") = String c s). by rewrite IH.
Qed.

Lemma template_subst_quasi_subst (a q b : string) :
  Js.template [Js.Subst a; Js.Quasi q; Js.Subst b] = a +:+ q +:+ b.
Proof. unfold Js.template, Js.part_text. by rewrite string_app_empty_r. Qed.

(** ** The Content Registry *)

(** C3: the derived [name] getter is [firstName + " " + lastName], whatever
    the two fields hold, also after they are assigned anew; for the person
    of the registry it is "Kevin Okinedo". *)
Theorem person_name_getter :
  (∀ this : Content.Person.t,
     Content.Person.name this
     = Content.Person.firstName this +:+ " " +:+ Content.Person.lastName this) ∧
  (∀ (first last : string) (this : Content.Person.t),
     Content.Person.name
       (Content.Person.set_lastName last (Content.Person.set_firstName first this))
     = first +:+ " " +:+ last) ∧
  Content.Person.firstName Content.person = "Kevin" ∧
  Content.Person.lastName Content.person = "Okinedo" ∧
  Content.Person.name Content.person = "Kevin Okinedo".
Proof.
  split_and!; try reflexivity.
  - intros this. apply template_subst_quasi_subst.
  - intros first last this. unfold Content.Person.name. cbn.
    apply template_subst_quasi_subst.
Qed.

(** C7: the social list is GitHub, LinkedIn, X, Email, and each of the four
    entries has a non-empty [name] and a non-empty [icon]. *)
Theorem social_name_icon_nonempty :
  Content.SocialLink.name <$> Content.social = ["GitHub"; "LinkedIn"; "X"; "Email"] ∧
  ∀ s, s ∈ Content.social →
    Content.SocialLink.name s ≠ "" ∧ Content.SocialLink.icon s ≠ "".
Proof.
  split; [reflexivity|].
  intros s Hs. unfold Content.social in Hs. each_member Hs; by split.
Qed.

(** C8: the social list has an entry named "X" whose [link] is the empty
    string; every entry with an empty [link] is that one, and the entries
    GitHub, LinkedIn and Email have a non-empty [link]. *)
Theorem social_only_x_unset :
  (∃ s, s ∈ Content.social ∧
        Content.SocialLink.name s = "X" ∧ Content.SocialLink.link s = "") ∧
  (∀ s, s ∈ Content.social →
        Content.SocialLink.link s = "" → Content.SocialLink.name s = "X") ∧
  (∀ s, s ∈ Content.social →
        Content.SocialLink.name s ∈ ["GitHub"; "LinkedIn"; "Email"] →
        Content.SocialLink.link s ≠ "") ∧
  length (filter (λ s, Content.SocialLink.link s = "") Content.social) = 1%nat.
Proof.
  split_and!.
  - exists (Content.SocialLink.mk "X" "x" ""). split; [|done].
    unfold Content.social. member_of_list.
  - intros s Hs. unfold Content.social in Hs. each_member Hs; done.
  - intros s Hs Hn. unfold Content.social in Hs. each_member Hs; try done.
    exfalso. cbn in Hn.
    repeat (apply elem_of_cons in Hn as [Hn'|Hn]; [discriminate Hn'|]).
    by apply elem_of_nil in Hn.
  - reflexivity.
Qed.

(** C9: the work-experience list is Splunk, Microsoft, Asset-Map, Kined
    Systems, McKinsey, and the [images] field of each of the five entries
    is the empty list. *)
Theorem work_experience_images_empty :
  Content.WorkExperience.company <$> Content.WorkSection.experiences Content.about_work
    = ["Splunk Inc."; "Microsoft Inc."; "Asset-Map Inc.";
       "Kined Systems Inc."; "McKinsey & Company Inc."] ∧
  ∀ e, e ∈ Content.WorkSection.experiences Content.about_work →
    Content.WorkExperience.images e = [].
Proof.
  split; [reflexivity|].
  intros e He. cbn in He. each_member He; reflexivity.
Qed.

(** ** Calendar arithmetic *)

Import IsoDate.

(** Linear arithmetic with division and remainder by constants. *)
Ltac div_lia := Z.to_euclidean_division_equations; lia.

Lemma days_before_march_closed (y : Z) :
  days_before_march y = 365 * y + y / 4 - y / 100 + y / 400.
Proof. unfold days_before_march. div_lia. Qed.

Lemma is_leap_spec (y : Z) :
  is_leap y = true ↔ y mod 4 = 0 ∧ (y mod 100 ≠ 0 ∨ y mod 400 = 0).
Proof.
  unfold is_leap.
  rewrite andb_true_iff, orb_true_iff, negb_true_iff, !Z.eqb_eq, Z.eqb_neq.
  done.
Qed.

Lemma march_year_length (y : Z) :
  days_before_march (y + 1)
  = days_before_march y + (if is_leap (y + 1) then 366 else 365).
Proof.
  rewrite !days_before_march_closed.
  destruct (is_leap (y + 1)) eqn:Hl.
  - apply is_leap_spec in Hl. div_lia.
  - apply not_true_iff_false in Hl. rewrite is_leap_spec in Hl. div_lia.
Qed.

Lemma days_before_march_mono (y z : Z) :
  y ≤ z → days_before_march y ≤ days_before_march z.
Proof. rewrite !days_before_march_closed. div_lia. Qed.

Lemma valid_spec (d : date) :
  valid d = true ↔
  1 ≤ month d ≤ 12 ∧ 1 ≤ day d ≤ days_in_month (year d) (month d).
Proof. unfold valid. rewrite !andb_true_iff, !Z.leb_le. tauto. Qed.

(** Case analysis on the month of a valid date. *)
Ltac month_cases d Hv :=
  let Hm := fresh "Hm" in
  apply valid_spec in Hv as [Hm Hv];
  unfold day_of_march_year, march_month, march_year, days_in_month in *;
  assert (month d = 1 ∨ month d = 2 ∨ month d = 3 ∨ month d = 4 ∨
          month d = 5 ∨ month d = 6 ∨ month d = 7 ∨ month d = 8 ∨
          month d = 9 ∨ month d = 10 ∨ month d = 11 ∨ month d = 12)
    as Hm' by lia;
  clear Hm; destruct_or! Hm'; rewrite Hm' in *; simpl in *.

Lemma day_of_march_year_bounds (d : date) :
  valid d = true →
  0 ≤ day_of_march_year d < (if is_leap (march_year d + 1) then 366 else 365).
Proof.
  intros Hv. month_cases d Hv.
  all: try replace (year d - 1 + 1) with (year d) by lia.
  all: destruct (is_leap _); div_lia.
Qed.

Lemma day_of_march_year_month_end (d : date) :
  valid d = true → march_month d < 11 →
  day_of_march_year d < (153 * (march_month d + 1) + 2) / 5.
Proof. intros Hv. month_cases d Hv; try destruct (is_leap _); div_lia. Qed.

Lemma day_of_march_year_lt (d e : date) :
  valid d = true → valid e = true →
  march_month d < march_month e →
  day_of_march_year d < day_of_march_year e.
Proof.
  intros Hd He Hlt.
  assert (march_month e ≤ 11).
  { apply valid_spec in He. unfold march_month. case_match; lia. }
  pose proof (day_of_march_year_month_end d Hd).
  apply valid_spec in He. unfold day_of_march_year at 2.
  assert ((153 * (march_month d + 1) + 2) / 5 ≤ (153 * march_month e + 2) / 5)
    by (apply Z.div_le_mono; lia).
  lia.
Qed.

Lemma day_number_march_year_lt (d e : date) :
  valid d = true → valid e = true →
  march_year d < march_year e → day_number d < day_number e.
Proof.
  intros Hd He Hlt. unfold day_number.
  pose proof (day_of_march_year_bounds d Hd).
  pose proof (day_of_march_year_bounds e He).
  pose proof (march_year_length (march_year d)).
  pose proof (days_before_march_mono (march_year d + 1) (march_year e)).
  destruct (is_leap _); lia.
Qed.

Lemma day_number_lt (d e : date) :
  valid d = true → valid e = true → lt_fields d e →
  day_number d < day_number e.
Proof.
  intros Hd He Hlt.
  destruct (Z.lt_trichotomy (march_year d) (march_year e)) as [Hy|[Hy|Hy]].
  - by apply day_number_march_year_lt.
  - unfold day_number. rewrite Hy.
    destruct (Z.lt_trichotomy (march_month d) (march_month e)) as [Hm|[Hm|Hm]].
    + pose proof (day_of_march_year_lt d e Hd He Hm). lia.
    + unfold day_of_march_year. rewrite Hm.
      apply valid_spec in Hd, He.
      unfold lt_fields, march_year, march_month in *.
      repeat case_match; lia.
    + apply valid_spec in Hd, He.
      unfold lt_fields, march_year, march_month in *.
      repeat case_match; lia.
  - apply valid_spec in Hd, He.
    unfold lt_fields, march_year, march_month in *.
    repeat case_match; lia.
Qed.

Lemma chronological_compare_fields (d e : date) :
  valid d = true → valid e = true →
  chronological d e = compare_fields d e.
Proof.
  intros Hd He. unfold chronological, compare_fields.
  destruct (Z.compare_spec (year d) (year e)) as [Hy|Hy|Hy].
  - destruct (Z.compare_spec (month d) (month e)) as [Hm|Hm|Hm].
    + destruct (Z.compare_spec (day d) (day e)) as [Hday|Hday|Hday].
      * apply Z.compare_eq_iff. unfold day_number, march_year, march_month,
          day_of_march_year, march_month. by rewrite Hy, Hm, Hday.
      * apply Z.compare_lt_iff, day_number_lt; unfold lt_fields; auto.
      * apply Z.compare_gt_iff, day_number_lt; unfold lt_fields; auto.
    + apply Z.compare_lt_iff, day_number_lt; unfold lt_fields; auto.
    + apply Z.compare_gt_iff, day_number_lt; unfold lt_fields; auto.
  - apply Z.compare_lt_iff, day_number_lt; unfold lt_fields; auto.
  - apply Z.compare_gt_iff, day_number_lt; unfold lt_fields; auto.
Qed.

(** ** ISO date strings *)

Lemma digit_Some (c : ascii) (a : Z) :
  digit c = Some a →
  48 ≤ Z.of_N (N_of_ascii c) ≤ 57 ∧ a = Z.of_N (N_of_ascii c) - 48.
Proof.
  unfold digit. intros H.
  destruct (_ && _) eqn:Hc; [|done].
  apply andb_true_iff in Hc as [?%Z.leb_le ?%Z.leb_le].
  by simplify_eq.
Qed.

(** A run of digits after [acc] denotes a number that starts with [acc]. *)
Lemma number_bounds (cs : list ascii) (acc x : Z) :
  number acc cs = Some x →
  acc * 10 ^ Z.of_nat (length cs) ≤ x < (acc + 1) * 10 ^ Z.of_nat (length cs).
Proof.
  revert acc. induction cs as [|c cs IH]; intros acc H; simpl in H.
  - simplify_eq. simpl. lia.
  - destruct (digit c) as [a|] eqn:Hc; [|done]. simpl in H.
    apply digit_Some in Hc as [Hc ->]. apply IH in H.
    rewrite length_cons, Nat2Z.inj_succ, Z.pow_succ_r by lia.
    nia.
Qed.

(** Two runs of digits of one length compare as the numbers they denote. *)
Lemma number_compare (cs ds : list ascii) (acc x y : Z) (s t : string) :
  length cs = length ds →
  number acc cs = Some x → number acc ds = Some y →
  String.compare (foldr String s cs) (foldr String t ds)
  = match x ?= y with Eq => String.compare s t | c => c end.
Proof.
  revert ds acc. induction cs as [|c cs IH]; intros [|c' ds] acc Hlen Hx Hy;
    try discriminate Hlen; simpl in Hx, Hy.
  - simplify_eq. by rewrite Z.compare_refl.
  - destruct (digit c) as [a|] eqn:Hc; [|done].
    destruct (digit c') as [b|] eqn:Hc'; [|done]. simpl in Hx, Hy.
    apply digit_Some in Hc as [Hc ->]. apply digit_Some in Hc' as [Hc' ->].
    simpl. unfold Ascii.compare.
    injection Hlen as Hlen.
    destruct (N.compare_spec (N_of_ascii c) (N_of_ascii c')) as [Heq|Hlt|Hgt].
    + rewrite Heq in Hx. by apply (IH ds _ Hlen Hx Hy).
    + apply number_bounds in Hx, Hy. rewrite <-Hlen in Hy.
      assert (x < y) as ->%Z.compare_lt_iff; [|done].
      assert (0 < 10 ^ Z.of_nat (length cs)) by (apply Z.pow_pos_nonneg; lia).
      nia.
    + apply number_bounds in Hx, Hy. rewrite <-Hlen in Hy.
      assert (y < x) as ->%Z.compare_gt_iff; [|done].
      assert (0 < 10 ^ Z.of_nat (length cs)) by (apply Z.pow_pos_nonneg; lia).
      nia.
Qed.

(** What [fields] accepts: four digits, a dash, two digits, a dash, two
    digits. *)
Lemma fields_Some (s : string) (d : date) :
  fields s = Some d →
  ∃ ys ms ds : list ascii,
    length ys = 4%nat ∧ length ms = 2%nat ∧ length ds = 2%nat ∧
    s = foldr String (String "-" (foldr String (String "-"
          (foldr String "" ds)) ms)) ys ∧
    number 0 ys = Some (year d) ∧
    number 0 ms = Some (month d) ∧
    number 0 ds = Some (day d).
Proof.
  unfold fields. intros H.
  destruct s as [|y1 s]; [discriminate H|].
  destruct s as [|y2 s]; [discriminate H|].
  destruct s as [|y3 s]; [discriminate H|].
  destruct s as [|y4 s]; [discriminate H|].
  destruct s as [|s1 s]; [discriminate H|].
  destruct s as [|m1 s]; [discriminate H|].
  destruct s as [|m2 s]; [discriminate H|].
  destruct s as [|s2 s]; [discriminate H|].
  destruct s as [|d1 s]; [discriminate H|].
  destruct s as [|d2 s]; [discriminate H|].
  destruct s; [|discriminate H].
  cbn [list_ascii_of_string] in H.
  destruct (is_dash s1 && is_dash s2) eqn:Hdash; [|discriminate H].
  apply andb_true_iff in Hdash as [->%bool_decide_eq_true ->%bool_decide_eq_true].
  destruct (number 0 [y1; y2; y3; y4]) as [y|] eqn:Hy; [|discriminate H].
  destruct (number 0 [m1; m2]) as [m|] eqn:Hm; [|discriminate H].
  destruct (number 0 [d1; d2]) as [dd|] eqn:Hd; [|discriminate H].
  injection H as <-.
  by exists [y1; y2; y3; y4], [m1; m2], [d1; d2].
Qed.

Lemma string_compare_fields (s t : string) (d e : date) :
  fields s = Some d → fields t = Some e →
  String.compare s t = compare_fields d e.
Proof.
  intros (ys & ms & ds & Hys & Hms & Hds & -> & Hy & Hm & Hd)%fields_Some
         (ys' & ms' & ds' & Hys' & Hms' & Hds' & -> & Hy' & Hm' & Hd')%fields_Some.
  unfold compare_fields.
  rewrite (number_compare ys ys' 0 _ _ _ _ ltac:(congruence) Hy Hy').
  destruct (year d ?= year e); [|done..].
  cbn [String.compare]. change (Ascii.compare "-" "-") with Eq. cbv iota.
  rewrite (number_compare ms ms' 0 _ _ _ _ ltac:(congruence) Hm Hm').
  destruct (month d ?= month e); [|done..].
  cbn [String.compare]. change (Ascii.compare "-" "-") with Eq. cbv iota.
  rewrite (number_compare ds ds' 0 _ _ _ _ ltac:(congruence) Hd Hd').
  by destruct (day d ?= day e).
Qed.

(** Lexicographic order of ISO date strings is the order of the dates in
    time. *)
Lemma iso_lexicographic_chronological (s t : string) (d e : date) :
  parse s = Some d → parse t = Some e →
  String.compare s t = chronological d e.
Proof.
  unfold parse. intros Hs Ht.
  destruct (fields s) as [d'|] eqn:Hfs; [|done].
  destruct (fields t) as [e'|] eqn:Hft; [|done].
  simpl in Hs, Ht.
  destruct (valid d') eqn:Hvd; [|done]. destruct (valid e') eqn:Hve; [|done].
  simplify_eq.
  rewrite chronological_compare_fields by done.
  by apply string_compare_fields.
Qed.

(** ** Stable insertion sort *)

Section insertion_sort_facts.
Context {A : Type} (R : relation A) `{!RelDecision R}.

Lemma insert_by_Permutation x l : insert_by R x l ≡ₚ x :: l.
Proof.
  induction l as [|y l IH]; simpl; [done|].
  case_decide; [done|]. by rewrite IH, Permutation_swap.
Qed.

Lemma sort_by_Permutation l : sort_by R l ≡ₚ l.
Proof.
  induction l as [|x l IH]; simpl; [done|].
  by rewrite insert_by_Permutation, IH.
Qed.

Lemma HdRel_insert_by `{!Total R} a x l :
  R a x → HdRel R a l → HdRel R a (insert_by R x l).
Proof.
  intros Hax [|y l' Hay]; simpl; [by constructor|].
  case_decide; by constructor.
Qed.

Lemma Sorted_insert_by `{!Total R} x l :
  Sorted R l → Sorted R (insert_by R x l).
Proof.
  induction 1 as [|y l Hl IH Hy]; simpl; [by repeat constructor|].
  case_decide as Hxy.
  - by repeat constructor.
  - constructor; [done|]. apply HdRel_insert_by; [|done].
    by destruct (total R x y).
Qed.

Lemma Sorted_sort_by `{!Total R} l : Sorted R (sort_by R l).
Proof.
  induction l as [|x l IH]; simpl; [constructor|].
  by apply Sorted_insert_by.
Qed.

(** Inserting in front of a list the element may head changes nothing
    but the head. *)
Lemma insert_by_HdRel x l : HdRel R x l → insert_by R x l = x :: l.
Proof. intros [|y l' Hxy]; simpl; [done|]. by rewrite decide_True. Qed.

(** A sorted list is a fixed point of the sort. *)
Lemma sort_by_Sorted l : Sorted R l → sort_by R l = l.
Proof.
  induction 1 as [|x l Hl IH Hx]; simpl; [done|].
  rewrite IH. by apply insert_by_HdRel.
Qed.

Lemma sort_by_idempotent `{!Total R} l :
  sort_by R (sort_by R l) = sort_by R l.
Proof. apply sort_by_Sorted, Sorted_sort_by. Qed.
End insertion_sort_facts.

(** ** The descending order on posts *)

Lemma older_eq_total (a b : option Z) : older_eq a b ∨ older_eq b a.
Proof. destruct a, b; simpl; try (by left); try (by right). rewrite !Is_true_true, !Z.leb_le. lia. Qed.

Lemma older_eq_trans (a b c : option Z) :
  older_eq a b → older_eq b c → older_eq a c.
Proof.
  destruct a, b, c; simpl; try done.
  rewrite !Is_true_true, !Z.leb_le. lia.
Qed.

Lemma older_eq_antisym (a b : option Z) : older_eq a b → older_eq b a → a = b.
Proof.
  destruct a, b; simpl; try done.
  rewrite !Is_true_true, !Z.leb_le. intros. f_equal. lia.
Qed.

Global Instance newer_eq_total : Total newer_eq.
Proof. intros p q. apply older_eq_total. Qed.

Global Instance newer_eq_trans : Transitive newer_eq.
Proof. intros p q r Hpq Hqr. by apply (older_eq_trans _ (published q)). Qed.

(** ** The Post Collection *)

(** What the front-matter blocks say, file by file. *)
Lemma posts_publishedAt :
  publishedAt <$> posts
  = [Some "2025-01-22"; Some "2025-02-02"; Some "2025-01-15"; Some "2025-01-18";
     Some "2025-01-28"; Some "2025-01-25"; Some "2025-01-20"].
Proof. reflexivity. Qed.

(** Every post carries a date that parses. *)
Lemma posts_published_parse (p : MdxFile) :
  p ∈ posts →
  ∃ (s : string) (d : date), publishedAt p = Some s ∧ parse s = Some d.
Proof.
  intros Hp. unfold posts in Hp.
  each_member Hp; eexists _, _; (split; [reflexivity|by vm_compute]).
Qed.

(** No two posts were published on the same day. *)
Lemma published_inj_posts p q :
  p ∈ posts → q ∈ posts → published p = published q → p = q.
Proof.
  intros Hp Hq. unfold posts in Hp, Hq.
  each_member Hp; each_member Hq; first [done|by vm_compute].
Qed.

Lemma sort_posts_posts :
  sort_posts posts
  = [post_design; part_001; part_002; post_blog; part_003; post_work;
     post_quick_start].
Proof. vm_compute. reflexivity. Qed.

(** The descending order of the collection is the one the sort finds. *)
Lemma sorted_posts_unique l :
  l ≡ₚ posts → Sorted newer_eq l → l = sort_posts posts.
Proof.
  intros Hl Hs.
  apply (Sorted_unique_strong newer_eq); [|done|apply Sorted_sort_by; apply _|].
  - intros p q Hp Hq Hpq Hqp. apply published_inj_posts.
    + by rewrite <-Hl.
    + unfold sort_posts in Hq. by rewrite <-(sort_by_Permutation newer_eq posts).
    + by apply older_eq_antisym.
  - unfold sort_posts. by rewrite Hl, (sort_by_Permutation newer_eq posts).
Qed.

(** C1: in every enumeration of the seven posts that is ordered by
    [publishedAt] descending, the Computer Vision post (2025-02-02) stands
    before the AI Engineering Best Practices post (2025-01-15), and not
    the other way round. *)
Theorem newest_before_oldest (l : list MdxFile) :
  l ≡ₚ posts → Sorted newer_eq l →
  title post_design
    = Some "Computer Vision and Multimodal AI: Beyond Text Generation" ∧
  publishedAt post_design = Some "2025-02-02" ∧
  title post_quick_start
    = Some "AI Engineering Best Practices: From Research to Production" ∧
  publishedAt post_quick_start = Some "2025-01-15" ∧
  appears_before post_design post_quick_start l ∧
  ¬ appears_before post_quick_start post_design l.
Proof.
  intros Hl Hs. split_and!; try reflexivity.
  - rewrite (sorted_posts_unique l Hl Hs), sort_posts_posts.
    exists 0%nat, 6%nat. split_and!; [lia|done..].
  - rewrite (sorted_posts_unique l Hl Hs), sort_posts_posts.
    intros (i & j & Hij & _ & Hj).
    destruct j as [|[|[|[|[|[|[|j]]]]]]]; simpl in Hj; try lia; try done;
      apply (f_equal (λ x, x ≫= publishedAt)) in Hj; by vm_compute in Hj.
Qed.

Lemma newest_before_oldest_witness :
  sort_posts posts ≡ₚ posts ∧ Sorted newer_eq (sort_posts posts) ∧
  appears_before post_design post_quick_start (sort_posts posts).
Proof.
  assert (Hp : sort_posts posts ≡ₚ posts) by apply sort_by_Permutation.
  assert (Hs : Sorted newer_eq (sort_posts posts))
    by (apply Sorted_sort_by; apply _).
  split_and!; [done..|]. apply (newest_before_oldest _ Hp Hs).
Defined.

(** C2: each of the seven post files supplies [title], [summary] and
    [publishedAt], and its [publishedAt] has the shape YYYY-MM-DD and
    parses as a date of the calendar. *)
Theorem posts_required_front_matter (p : MdxFile) :
  p ∈ posts →
  is_Some (title p) ∧ is_Some (summary p) ∧
  ∃ (s : string) (d : IsoDate.date),
    publishedAt p = Some s ∧
    IsoDate.iso_shape s = true ∧
    IsoDate.parse s = Some d ∧
    IsoDate.valid d = true.
Proof.
  intros Hp. unfold posts in Hp.
  each_member Hp; (split_and!; [by eexists..|]);
    eexists _, _; (split_and!; [reflexivity|by vm_compute..]).
Qed.

Lemma posts_required_front_matter_witness :
  part_001 ∈ posts ∧
  is_Some (title part_001) ∧ is_Some (summary part_001) ∧
  ∃ (s : string) (d : IsoDate.date),
    publishedAt part_001 = Some s ∧
    IsoDate.iso_shape s = true ∧
    IsoDate.parse s = Some d ∧
    IsoDate.valid d = true.
Proof.
  assert (Hp : part_001 ∈ posts) by (unfold posts; member_of_list).
  exact (conj Hp (posts_required_front_matter part_001 Hp)).
Defined.

(** C6: in each of the seven post files, [title] and [summary] are
    non-empty strings. *)
Theorem posts_title_summary_nonempty (p : MdxFile) :
  p ∈ posts →
  ∃ t s : string, title p = Some t ∧ summary p = Some s ∧ t ≠ "" ∧ s ≠ "".
Proof.
  intros Hp. unfold posts in Hp.
  each_member Hp; eexists _, _; (split_and!; [reflexivity..|done|done]).
Qed.

Lemma posts_title_summary_nonempty_witness :
  part_003 ∈ posts ∧
  ∃ t s : string,
    title part_003 = Some t ∧ summary part_003 = Some s ∧ t ≠ "" ∧ s ≠ "".
Proof.
  assert (Hp : part_003 ∈ posts) by (unfold posts; member_of_list).
  exact (conj Hp (posts_title_summary_nonempty part_003 Hp)).
Defined.

(** C4: for every two posts of the collection, comparing their
    [publishedAt] strings character by character gives the same answer as
    comparing the dates they denote. *)
Theorem posts_lexicographic_chronological (p q : MdxFile) :
  p ∈ posts → q ∈ posts →
  is_Some (compare_chronological p q) ∧
  compare_lexicographic p q = compare_chronological p q.
Proof.
  intros (s & d & Hs & Hd)%posts_published_parse
         (t & e & Ht & He)%posts_published_parse.
  unfold compare_lexicographic, compare_chronological.
  rewrite Hs, Ht. simpl. rewrite Hd, He. simpl.
  split; [by eexists|].
  f_equal. by apply iso_lexicographic_chronological.
Qed.

Lemma posts_lexicographic_chronological_witness :
  post_design ∈ posts ∧ post_quick_start ∈ posts ∧
  compare_lexicographic post_design post_quick_start = Some Gt ∧
  compare_chronological post_design post_quick_start = Some Gt.
Proof.
  assert (Hp : post_design ∈ posts) by (unfold posts; member_of_list).
  assert (Hq : post_quick_start ∈ posts) by (unfold posts; member_of_list).
  split_and!; [done|done|reflexivity|].
  by destruct (posts_lexicographic_chronological _ _ Hp Hq) as [_ <-].
Defined.

(** C5: sorting by [publishedAt] descending is idempotent: sorting the
    sorted collection gives the sorted collection again, as it does for
    every list of posts. *)
Theorem sort_posts_idempotent :
  sort_posts (sort_posts posts) = sort_posts posts ∧
  ∀ l : list MdxFile, sort_posts (sort_posts l) = sort_posts l.
Proof. split; [|intros l]; apply sort_by_idempotent, _. Qed.

(** C10: the [publishedAt] values of the seven posts are pairwise distinct,
    as strings and as days; sorted descending they read 2025-02-02,
    2025-01-28, 2025-01-25, 2025-01-22, 2025-01-20, 2025-01-18, 2025-01-15;
    and two enumerations of the collection that are both in descending
    order are the same list. *)
Theorem posts_order_unique (l1 l2 : list MdxFile) :
  l1 ≡ₚ posts → l2 ≡ₚ posts → Sorted newer_eq l1 → Sorted newer_eq l2 →
  NoDup (publishedAt <$> posts) ∧
  NoDup (published <$> posts) ∧
  publishedAt <$> l1
    = [Some "2025-02-02"; Some "2025-01-28"; Some "2025-01-25";
       Some "2025-01-22"; Some "2025-01-20"; Some "2025-01-18";
       Some "2025-01-15"] ∧
  l1 = l2.
Proof.
  intros Hl1 Hl2 Hs1 Hs2.
  rewrite (sorted_posts_unique l1 Hl1 Hs1), (sorted_posts_unique l2 Hl2 Hs2).
  split_and!; [| |by rewrite sort_posts_posts|done].
  - apply (bool_decide_unpack _). by vm_compute.
  - apply (bool_decide_unpack _). by vm_compute.
Qed.

Lemma posts_order_unique_witness :
  sort_posts posts ≡ₚ posts ∧ Sorted newer_eq (sort_posts posts) ∧
  NoDup (publishedAt <$> posts) ∧
  publishedAt <$> sort_posts posts
    = [Some "2025-02-02"; Some "2025-01-28"; Some "2025-01-25";
       Some "2025-01-22"; Some "2025-01-20"; Some "2025-01-18";
       Some "2025-01-15"].
Proof.
  assert (Hp : sort_posts posts ≡ₚ posts) by apply sort_by_Permutation.
  assert (Hs : Sorted newer_eq (sort_posts posts))
    by (apply Sorted_sort_by; apply _).
  destruct (posts_order_unique _ _ Hp Hp Hs Hs) as (Hn & _ & Hd & _).
  by split_and!.
Defined.

(** * Properties of the code beside the content model *)

Section calendar_button_facts.
Import CalendarButton.

(** X1: the caller's style wins: every property the caller sets reaches the
    element with the caller's value, [cursor] and [backdropFilter]
    included; the two defaults apply only to what the caller leaves
    unset, and no other property appears. *)
Theorem calendar_button_style (props : CalendarButtonProps) (key : string) :
  style_of (CalendarButton props) !! key
  = match style props ≫= (.!! key) with
    | Some v => Some v
    | None =>
        if decide (key = "cursor") then Some (Str "pointer")
        else if decide (key = "backdropFilter")
             then Some (Str "blur(var(--static-space-1))")
        else None
    end.
Proof.
  unfold CalendarButton, style_of, object_literal. cbn [foldl].
  assert (∀ m : CSSProperties,
            (<["backdropFilter" := Str "blur(var(--static-space-1))"]>
               (<["cursor" := Str "pointer"]> m)) !! key
            = if decide (key = "cursor") then
                (if decide (key = "backdropFilter")
                 then Some (Str "blur(var(--static-space-1))")
                 else Some (Str "pointer"))
              else if decide (key = "backdropFilter")
                   then Some (Str "blur(var(--static-space-1))")
              else m !! key) as Hdefaults.
  { intros m. rewrite !lookup_insert.
    repeat case_decide; subst; done. }
  destruct (style props) as [caller|]; cbn [mbind option_bind].
  - rewrite lookup_union, Hdefaults, lookup_empty.
    destruct (caller !! key) as [v|]; simpl.
    + by repeat case_decide.
    + repeat case_decide; subst; done.
  - rewrite Hdefaults, lookup_empty. repeat case_decide; subst; done.
Qed.

End calendar_button_facts.

Section context_manager_facts.
Import ContextManager.
Context {Token : Type} (encode : string → list Token).

Local Abbreviation count := (count_tokens encode).
Local Abbreviation tokens := (history_tokens encode).

Lemma history_tokens_nonneg l : 0 ≤ tokens l.
Proof. induction l; simpl; unfold count_tokens in *; lia. Qed.

Lemma history_tokens_app l1 l2 :
  tokens (l1 ++ l2)%list = tokens l1 + tokens l2.
Proof. induction l1; simpl; lia. Qed.

Lemma history_tokens_reverse l : tokens (reverse l) = tokens l.
Proof.
  induction l as [|m l IH]; [done|].
  rewrite reverse_cons, history_tokens_app, IH. simpl. lia.
Qed.

(** What the loop leaves: the first [k] messages it visited, put back in
    their order, where message [k] is the first that does not fit. *)
Lemma truncate_loop_spec avail msgs acc :
  ∃ k : nat,
    truncate_loop encode avail msgs acc (tokens acc)
      = (reverse (take k msgs) ++ acc)%list ∧
    (k ≤ length msgs)%nat ∧
    (k ≠ 0%nat → tokens (take k msgs) + tokens acc ≤ avail) ∧
    (∀ m, msgs !! k = Some m →
       avail < tokens (take k msgs) + tokens acc + count m).
Proof.
  revert acc. induction msgs as [|m msgs IH]; intros acc; simpl.
  - exists 0%nat. split_and!; [done|done|done|]. intros m. by rewrite lookup_nil.
  - destruct (Z.leb_spec (tokens acc + count m) avail) as [Hfit|Hfit].
    + destruct (IH (m :: acc)) as (k & Hk & Hlen & Hsum & Hnext).
      simpl in Hk. replace (count m + tokens acc) with (tokens acc + count m) in Hk by lia.
      exists (S k). simpl. split_and!.
      * rewrite Hk, reverse_cons, <-app_assoc. done.
      * lia.
      * intros _. destruct k as [|k'].
        -- simpl. lia.
        -- specialize (Hsum ltac:(done)). simpl in Hsum. lia.
      * intros m' Hm'. specialize (Hnext m' Hm'). simpl in Hnext. lia.
    + exists 0%nat. simpl. split_and!; [done|lia|done|].
      intros m' [= <-]. lia.
Qed.


Lemma truncate_loop_start avail msgs :
  ∃ k : nat,
    truncate_loop encode avail msgs [] 0 = reverse (take k msgs) ∧
    (k ≤ length msgs)%nat ∧
    (k ≠ 0%nat → tokens (take k msgs) ≤ avail) ∧
    (∀ m, msgs !! k = Some m → avail < tokens (take k msgs) + count m).
Proof.
  destruct (truncate_loop_spec avail msgs []) as (k & Hk & Hlen & Hsum & Hnext).
  change (tokens []) with 0 in *. rewrite app_nil_r in Hk.
  exists k. split_and!; [done|done|intros ?; specialize (Hsum ltac:(done)); lia|].
  intros m Hm. specialize (Hnext m Hm). lia.
Qed.

Lemma history_tokens_take (j : nat) l : tokens (take j l) ≤ tokens l.
Proof.
  rewrite <-(take_drop j l) at 2. rewrite history_tokens_app.
  pose proof (history_tokens_nonneg (drop j l)). lia.
Qed.

(** X2: the two prompts come back as they are, and the history that is
    kept is a suffix of the conversation, the longest one that fits in the
    tokens left over: every suffix that fits is a suffix of it. *)
Theorem truncate_context_longest_suffix (self : t) (system_prompt : string)
    (conversation_history : list string) (current_prompt : string) :
  (truncate_context encode self system_prompt
     conversation_history current_prompt).1.1 = system_prompt ∧
  (truncate_context encode self system_prompt
     conversation_history current_prompt).2 = current_prompt ∧
  (truncate_context encode self system_prompt
     conversation_history current_prompt).1.2
    `suffix_of` conversation_history ∧
  ∀ s : list string,
    s `suffix_of` conversation_history →
    tokens s ≤ available_tokens encode self system_prompt current_prompt →
    s `suffix_of`
      (truncate_context encode self system_prompt
         conversation_history current_prompt).1.2.
Proof.
  split; [done|]. split; [done|].
  simpl. set (avail := available_tokens _ _ _ _).
  set (r := reverse conversation_history).
  destruct (truncate_loop_start avail r) as (k & -> & Hlen & _ & Hnext).
  assert (Hr : conversation_history = reverse r) by (unfold r; by rewrite reverse_involutive).
  split.
  - exists (reverse (drop k r)).
    by rewrite Hr at 1; rewrite <-(take_drop k r) at 1; rewrite reverse_app.
  - intros s [p Hp] Hfit.
    assert (Hrs : r = (reverse s ++ reverse p)%list)
      by (unfold r; by rewrite Hp, reverse_app).
    destruct (decide (length s ≤ k)%nat) as [Hle|Hgt].
    + exists (reverse (drop (length s) (take k r))).
      rewrite <-(take_drop (length s) (take k r)) at 1.
      rewrite reverse_app. f_equal.
      rewrite take_take, Nat.min_l by done.
      rewrite Hrs, take_app_le by (rewrite length_reverse; lia).
      rewrite firstn_all2 by (rewrite length_reverse; lia).
      by rewrite reverse_involutive.
    + exfalso.
      destruct (lookup_lt_is_Some_2 r k) as [m Hm].
      { rewrite Hrs, length_app, !length_reverse. lia. }
      specialize (Hnext m Hm).
      assert (take (S k) r = (take k r ++ [m])%list) as Hsk
        by by apply take_S_r.
      assert (tokens (take (S k) r) ≤ tokens s).
      { rewrite <-(history_tokens_reverse s).
        rewrite Hrs, take_app_le by (rewrite length_reverse; lia).
        apply history_tokens_take. }
      rewrite Hsk, history_tokens_app in H. simpl in H. lia.
Qed.

(** X3: the budget.  When the prompts and the reserve alone exceed
    [max_tokens], no history is kept; when some is kept, the two prompts,
    the kept history and the reserve fit in [max_tokens]; and when the
    whole conversation fits, all of it is kept. *)
Theorem truncate_context_budget (self : t) (system_prompt : string)
    (conversation_history : list string) (current_prompt : string) :
  (available_tokens encode self system_prompt current_prompt < 0 →
   (truncate_context encode self system_prompt
      conversation_history current_prompt).1.2 = []) ∧
  ((truncate_context encode self system_prompt
      conversation_history current_prompt).1.2 ≠ [] →
   count system_prompt
   + tokens (truncate_context encode self system_prompt
               conversation_history current_prompt).1.2
   + count current_prompt + reserved_tokens self ≤ max_tokens self) ∧
  (tokens conversation_history
     ≤ available_tokens encode self system_prompt current_prompt →
   (truncate_context encode self system_prompt
      conversation_history current_prompt).1.2 = conversation_history).
Proof.
  simpl. set (avail := available_tokens _ _ _ _).
  set (r := reverse conversation_history).
  split_and!.
  - intros Hneg.
    destruct (truncate_loop_start avail r) as (k & -> & Hlen & Hsum & _).
    destruct k as [|k]; [done|]. specialize (Hsum ltac:(done)).
    pose proof (history_tokens_nonneg (take (S k) r)). lia.
  - destruct (truncate_loop_start avail r) as (k & -> & Hlen & Hsum & _).
    intros Hne.
    destruct k as [|k]; [done|]. specialize (Hsum ltac:(done)).
    rewrite history_tokens_reverse.
    unfold avail, available_tokens in Hsum. lia.
  - intros Hall.
    destruct (truncate_context_longest_suffix self system_prompt
                conversation_history current_prompt) as (_ & _ & [p Hp] & Hmax).
    destruct (Hmax conversation_history) as [q Hq]; [done|done|].
    simpl in Hp, Hq. fold avail r in Hp, Hq.
    apply (f_equal length) in Hp as Hlp. apply (f_equal length) in Hq as Hlq.
    rewrite length_app in Hlp, Hlq.
    destruct p; [done|]. simpl in Hlp. lia.
Qed.

End context_manager_facts.

Section self_consistency_facts.
Import SelfConsistencyPrompt.

Lemma count_of_counter_add (x a : string) (counts : list (string * Z)) :
  count_of (counter_add x counts) a
  = count_of counts a + (if decide (a = x) then 1 else 0).
Proof.
  induction counts as [|[y n] counts IH]; simpl.
  - by case_decide.
  - destruct (decide (x = y)) as [->|Hxy]; simpl.
    + repeat case_decide; lia.
    + rewrite IH. repeat case_decide; subst; try done; lia.
Qed.

Lemma counter_add_keys (x : string) (counts : list (string * Z)) :
  (counter_add x counts).*1
  = if decide (x ∈ counts.*1) then counts.*1 else (counts.*1 ++ [x])%list.
Proof.
  induction counts as [|[y n] counts IH]; cbn [counter_add fmap list_fmap fst].
  - destruct (decide (x ∈ [])) as [Hx|_]; [by apply elem_of_nil in Hx|done].
  - destruct (decide (x = y)) as [->|Hxy]; cbn [fmap list_fmap fst].
    + destruct (decide (y ∈ y :: counts.*1)) as [_|Hx]; [done|].
      exfalso. apply Hx. by left.
    + rewrite IH.
      destruct (decide (x ∈ counts.*1)) as [Hin|Hin];
        destruct (decide (x ∈ y :: counts.*1)) as [Hx|Hx]; try done.
      * exfalso. apply Hx. by right.
      * apply elem_of_cons in Hx as [?|?]; done.
Qed.

Lemma counter_add_NoDup (x : string) (counts : list (string * Z)) :
  NoDup counts.*1 → NoDup (counter_add x counts).*1.
Proof.
  intros Hnd. rewrite counter_add_keys. case_decide as Hx; [done|].
  apply NoDup_app. split_and!; [done| |apply NoDup_singleton].
  intros y Hy ->%list_elem_of_singleton. done.
Qed.

Lemma counter_add_positive (x : string) (counts : list (string * Z)) :
  Forall (λ item, 0 < item.2) counts →
  Forall (λ item, 0 < item.2) (counter_add x counts).
Proof.
  induction 1 as [|[y n] counts Hn Hall IH]; simpl.
  - by repeat constructor.
  - case_decide; constructor; simpl in *; try done; lia.
Qed.

(** What a counter built from [answers] on top of [counts] holds. *)
Lemma Counter_spec (answers : list string) (counts : list (string * Z)) :
  NoDup counts.*1 → Forall (λ item, 0 < item.2) counts →
  let c := foldl (λ counts x, counter_add x counts) counts answers in
  NoDup c.*1 ∧ Forall (λ item, 0 < item.2) c ∧
  ∀ a, count_of c a = count_of counts a + votes a answers.
Proof.
  revert counts. induction answers as [|x answers IH]; intros counts Hnd Hpos; simpl.
  - split_and!; [done..|]. intros a. unfold votes. simpl. lia.
  - destruct (IH (counter_add x counts)) as (Hnd' & Hpos' & Hcnt).
    { by apply counter_add_NoDup. } { by apply counter_add_positive. }
    split_and!; [done..|]. intros a.
    rewrite Hcnt, count_of_counter_add. unfold votes.
    rewrite filter_cons. repeat case_decide; subst; simpl; try done; lia.
Qed.

Lemma count_of_elem (counts : list (string * Z)) (a : string) (n : Z) :
  NoDup counts.*1 → (a, n) ∈ counts → count_of counts a = n.
Proof.
  induction counts as [|[y m] counts IH]; simpl; intros Hnd Hin.
  - by apply elem_of_nil in Hin.
  - apply NoDup_cons in Hnd as [Hy Hnd].
    apply elem_of_cons in Hin as [[= <- <-]|Hin].
    + by rewrite decide_True.
    + rewrite decide_False; [by apply IH|].
      intros ->. apply Hy. apply list_elem_of_fmap. by exists (y, n).
Qed.

Lemma count_of_nonzero (counts : list (string * Z)) (a : string) :
  count_of counts a ≠ 0 → (a, count_of counts a) ∈ counts.
Proof.
  induction counts as [|[y m] counts IH]; simpl; [done|].
  case_decide as Hay; [subst; intros _; by left|].
  intros Hne. right. by apply IH.
Qed.

Lemma max_count_spec (best : string * Z) (items : list (string * Z)) :
  max_count best items ∈ best :: items ∧
  ∀ item, item ∈ best :: items → item.2 ≤ (max_count best items).2.
Proof.
  revert best. induction items as [|it items IH]; intros best; simpl.
  - split; [by left|]. intros item ->%list_elem_of_singleton. done.
  - destruct (IH (if best.2 <? it.2 then it else best)) as [Hin Hmax].
    split.
    + apply elem_of_cons in Hin as [->|Hin].
      * case_match; [right; left|left]; done.
      * by do 2 right.
    + intros item Hitem.
      assert (best.2 ≤ (if best.2 <? it.2 then it else best).2 ∧
              it.2 ≤ (if best.2 <? it.2 then it else best).2) as [Hb Hi]
        by (destruct (Z.ltb_spec best.2 it.2); lia).
      apply elem_of_cons in Hitem as [->|[->|Hitem]%elem_of_cons].
      * etrans; [exact Hb|]. apply Hmax. by left.
      * etrans; [exact Hi|]. apply Hmax. by left.
      * apply Hmax. by right.
Qed.

(** X4: on an empty list of answers [find_consensus] raises [IndexError]; on
    any other it returns an answer of the list that no answer beats, with
    the votes of that answer over the number of answers as confidence. *)
Theorem find_consensus_most_common {Float : Type} (true_div : Z → Z → Float)
    (answers : list string) :
  (answers = [] ↔ find_consensus true_div answers = inl IndexError) ∧
  (answers ≠ [] →
   ∃ a : string,
     find_consensus true_div answers
       = inr (a, true_div (votes a answers) (Z.of_nat (length answers))) ∧
     a ∈ answers ∧
     ∀ b : string, votes b answers ≤ votes a answers).
Proof.
  destruct (Counter_spec answers []) as (Hnd & Hpos & Hcnt0);
    [constructor|constructor|].
  fold (Counter answers) in Hnd, Hpos, Hcnt0.
  assert (∀ a, count_of (Counter answers) a = votes a answers) as Hcnt
    by (intros a; rewrite Hcnt0; simpl; lia).
  clear Hcnt0.
  assert (answers ≠ [] →
          ∃ item items, Counter answers = item :: items) as Hne.
  { intros Hne. destruct answers as [|x answers]; [done|].
    specialize (Hcnt x). unfold votes in Hcnt. rewrite filter_cons_True in Hcnt by done.
    simpl in Hcnt. destruct (Counter (x :: answers)) as [|item items]; [|by eauto].
    simpl in Hcnt. lia. }
  unfold find_consensus, most_common_1. split.
  - split.
    + by intros ->.
    + intros Herr. destruct answers as [|x answers]; [done|].
      destruct Hne as (item & items & Heq); [done|]. by rewrite Heq in Herr.
  - intros Hans. destruct (Hne Hans) as (item & items & Heq).
    rewrite Heq.
    destruct (max_count_spec item items) as [Hin Hmax].
    rewrite <-Heq in Hin, Hmax.
    destruct (max_count item items) as [a n]. cbn [fst snd] in *.
    assert (n = votes a answers) as ->.
    { rewrite <-Hcnt. symmetry. by apply count_of_elem. }
    exists a. split_and!; [done| |].
    + assert (0 < votes a answers) as Hva.
      { rewrite Forall_forall in Hpos. by apply (Hpos _ Hin). }
      unfold votes in Hva.
      destruct (filter _ answers) as [|x l] eqn:Hf; [simpl in Hva; lia|].
      assert (x ∈ filter (λ x, x = a) answers) as Hx by (rewrite Hf; by left).
      apply list_elem_of_filter in Hx as [-> Hx]. done.
    + intros b. destruct (decide (votes b answers = 0)) as [->|Hb].
      * unfold votes. lia.
      * rewrite <-(Hcnt b) in Hb |- *.
        apply count_of_nonzero in Hb. by apply (Hmax _ Hb).
Qed.

End self_consistency_facts.

Section connection_manager_facts.
Import ConnectionManager.
Context {WebSocket Time : Type} `{EqDecision WebSocket}.
Implicit Types (ws : WebSocket) (self : @t WebSocket Time).

Lemma list_remove_None {A} `{EqDecision A} (x : A) (l : list A) :
  list_remove x l = None ↔ x ∉ l.
Proof.
  induction l as [|y l IH]; simpl.
  - split; [intros _; apply not_elem_of_nil|done].
  - rewrite not_elem_of_cons. case_decide as Hxy.
    + split; [done|]. by intros [? _].
    + rewrite fmap_None, IH. tauto.
Qed.

Lemma list_remove_app_fresh {A} `{EqDecision A} (x : A) (l : list A) :
  x ∉ l → list_remove x (l ++ [x])%list = Some l.
Proof.
  induction l as [|y l IH]; simpl; intros Hx.
  - by rewrite decide_True.
  - apply not_elem_of_cons in Hx as [Hxy Hx].
    rewrite decide_False by done. by rewrite IH.
Qed.

Lemma list_remove_Some {A} `{EqDecision A} (x : A) (l l' : list A) :
  list_remove x l = Some l' →
  ∃ l1 l2, l = (l1 ++ x :: l2)%list ∧ l' = (l1 ++ l2)%list ∧ x ∉ l1.
Proof.
  revert l'. induction l as [|y l IH]; simpl; intros l' Hl; [done|].
  case_decide as Hxy.
  - injection Hl as <-. subst y.
    exists [], l. split_and!; [done..|apply not_elem_of_nil].
  - apply fmap_Some in Hl as (l0 & Hl0 & ->).
    destruct (IH _ Hl0) as (l1 & l2 & -> & -> & Hx).
    exists (y :: l1), l2. split_and!; [done..|].
    by apply not_elem_of_cons.
Qed.

Lemma delete_if_present {V} (m : gmap string V) (k : string) :
  (if decide (is_Some (m !! k)) then delete k m else m) = delete k m.
Proof.
  case_decide as Hk; [done|]. symmetry. apply delete_id.
  by apply eq_None_not_Some.
Qed.

(** X5: closing a connection that was just opened gives back the list of
    connections as it was, and leaves the user without a session, also
    when they had one before. *)
Theorem disconnect_connect ws (user_id : string) (now : Time) self :
  ws ∉ active_connections self →
  disconnect ws user_id (connect ws user_id now self).1
  = inr (mk (active_connections self) (delete user_id (user_sessions self))).
Proof.
  intros Hws. unfold disconnect, connect. simpl.
  rewrite list_remove_app_fresh by done.
  by rewrite delete_if_present, delete_insert_eq.
Qed.

(** X6: [disconnect] raises [ValueError] exactly when the socket is not an
    active connection; otherwise it drops one connection and the user's
    session. *)
Theorem disconnect_raises_iff ws (user_id : string) self :
  (disconnect ws user_id self = inl ValueError ↔ ws ∉ active_connections self) ∧
  (ws ∈ active_connections self →
   ∃ self', disconnect ws user_id self = inr self' ∧
     active_connections self ≡ₚ ws :: active_connections self' ∧
     user_sessions self' = delete user_id (user_sessions self)).
Proof.
  unfold disconnect. split.
  - rewrite <-list_remove_None. by destruct (list_remove _ _).
  - intros Hws. destruct (list_remove _ _) as [l'|] eqn:Hl.
    + eexists. split; [done|]. simpl. split; [|apply delete_if_present].
      apply list_remove_Some in Hl as (l1 & l2 & -> & -> & _).
      by rewrite Permutation_middle.
    + by apply list_remove_None in Hl.
Qed.


(** X8: [connect] keeps every session's socket among the active connections;
    so does [disconnect] when no other user's session is on the socket
    that closes. *)
Theorem sessions_active_preserved ws (user_id : string) (now : Time) self :
  sessions_active self →
  sessions_active (connect ws user_id now self).1 ∧
  ∀ self',
    (∀ u s, u ≠ user_id → user_sessions self !! u = Some s → websocket s ≠ ws) →
    disconnect ws user_id self = inr self' →
    sessions_active self'.
Proof.
  intros Hinv. split.
  - intros u s. unfold connect. simpl. rewrite lookup_insert.
    case_decide; intros Hs; simplify_eq /=; [set_solver|].
    apply Hinv in Hs. set_solver.
  - intros self' Hother. unfold disconnect.
    destruct (list_remove _ _) as [l'|] eqn:Hl; [|done]. intros [= <-].
    intros u s. simpl. rewrite delete_if_present.
    destruct (decide (u = user_id)) as [->|Hu].
    { by rewrite lookup_delete_eq. }
    rewrite lookup_delete_ne by done. intros Hs.
    pose proof (Hinv _ _ Hs) as Hin. pose proof (Hother _ _ Hu Hs) as Hws.
    apply list_remove_Some in Hl as (l1 & l2 & Hl1 & -> & _).
    rewrite Hl1, elem_of_app, elem_of_cons in Hin. rewrite elem_of_app.
    destruct Hin as [?|[?|?]]; [by left|done|by right].
Qed.

End connection_manager_facts.

Lemma disconnect_connect_witness :
  ConnectionManager.disconnect 7%nat "ada"
    (ConnectionManager.connect 7%nat "ada" 100%nat
       (ConnectionManager.mk [3%nat] ∅)).1
  = inr (ConnectionManager.mk [3%nat] (delete "ada" ∅)).
Proof.
  apply (disconnect_connect (Time:=nat) 7%nat "ada" 100%nat
           (ConnectionManager.mk [3%nat] ∅)).
  simpl. by intros [?|?%elem_of_nil]%elem_of_cons.
Defined.


Lemma sessions_active_preserved_witness :
  ConnectionManager.sessions_active
    (ConnectionManager.connect 1%nat "ada" 10%nat
       (ConnectionManager.init (Time:=nat))).1.
Proof.
  destruct (sessions_active_preserved (Time:=nat) 1%nat "ada" 10%nat
              ConnectionManager.init) as [Hconnect _].
  - intros u s. simpl. by rewrite lookup_empty.
  - exact Hconnect.
Defined.

Section vector_store_facts.
Import OptimizedVectorStore.
Context {Vector Distance Doc : Type}.
Context (is_trained : @index Vector → bool)
        (index_search : @index Vector → Vector → Z → list (Distance * Z))
        (astype_float32 : Vector → Vector)
        (float : Distance → Distance)
        (truthy : Doc → bool).

Local Abbreviation add_embeddings := (add_embeddings (Doc:=Doc) is_trained astype_float32).
Local Abbreviation add_batches := (add_batches (Doc:=Doc) is_trained astype_float32).
Local Abbreviation search := (search index_search astype_float32 float truthy).

Lemma store_documents_lookup (start : Z) (documents : list Doc)
    (store : gmap Z Doc) (k : Z) :
  store_documents start documents store !! k
  = if decide (start ≤ k < start + Z.of_nat (length documents))
    then documents !! Z.to_nat (k - start)
    else store !! k.
Proof.
  revert start store. induction documents as [|doc documents IH];
    intros start store; simpl.
  - by rewrite decide_False by lia.
  - rewrite IH. destruct (decide (k = start)) as [->|Hk].
    + rewrite decide_False by lia. rewrite lookup_insert_eq.
      rewrite decide_True by lia. by rewrite Z.sub_diag.
    + rewrite lookup_insert_ne by done.
      destruct (decide (start + 1 ≤ k < start + 1 + Z.of_nat (length documents))).
      * rewrite decide_True by lia.
        replace (Z.to_nat (k - start)) with (S (Z.to_nat (k - (start + 1)))) by lia.
        done.
      * by rewrite decide_False by lia.
Qed.

Lemma add_batches_snoc batches batch (self : t) :
  add_batches (batches ++ [batch])%list self
  = add_embeddings batch.1 batch.2 (add_batches batches self).
Proof. unfold OptimizedVectorStore.add_batches. by rewrite foldl_app. Qed.

(** What a run of [add_embeddings] on a fresh store keeps. *)
Lemma add_batches_invariant (dim : Z) (ty : string)
    (batches : list (list Vector * list Doc)) :
  let s := add_batches batches (init dim ty) in
  index_type s = ty ∧ 0 ≤ id_counter s ∧
  id_counter s = Z.of_nat (length (concat (fst <$> batches))) ∧
  match index_ s with
  | None => batches = []
  | Some i =>
      added_ids i = seqZ 0 (id_counter s) ∧
      (ty = "IVF" → clusters i = Some 4)
  end.
Proof.
  induction batches as [|[embs docs] batches IH] using rev_ind; simpl.
  - by split_and!.
  - rewrite add_batches_snoc. simpl.
    destruct IH as (Hty & Hpos & Hcnt & Hidx).
    set (s := add_batches batches _) in *.
    unfold OptimizedVectorStore.add_embeddings.
    destruct (index_ s) as [i|] eqn:Hi; simpl.
    + destruct Hidx as [Hids Hcl]. rewrite Hi. simpl.
      split_and!; [done|lia| | |].
      * rewrite fmap_app, concat_app, length_app, Nat2Z.inj_add, <-Hcnt.
        simpl. by rewrite app_nil_r.
      * assert (∀ b : bool, added_ids (if b then Train i embs else i)
                            = added_ids i) as -> by (by intros []).
        rewrite Hids. unfold arange.
        replace (id_counter s + Z.of_nat (length embs) - id_counter s)
          with (Z.of_nat (length embs)) by lia.
        rewrite seqZ_app by lia. f_equal.
      * intros Hivf. by case_match; simpl; apply Hcl.
    + subst batches. clear Hty Hpos Hcnt Hi. unfold s. clear s.
      cbn [add_batches OptimizedVectorStore.add_batches foldl init create_index
           index_ index_type id_counter dimension document_store default].
      set (i := new_index None _).
      assert (added_ids i = [] ∧ (ty = "IVF" → clusters i = Some 4)) as [Hids Hcl].
      { unfold i, new_index. cbn [index_type id_counter dimension]. split.
        - by repeat case_decide.
        - intros ->. by rewrite decide_True. }
      split_and!; [done|lia| | |].
      * simpl. rewrite app_nil_r. lia.
      * assert (∀ b : bool, added_ids (if b then Train i embs else i)
                            = added_ids i) as -> by (by intros []).
        rewrite Hids. unfold arange. simpl. f_equal. lia.
      * intros Hivf. by case_match; simpl; apply Hcl.
Qed.

(** X9: on a store filled batch by batch from new, the index has been given
    the ids [0, 1, ..., id_counter - 1], in this order and each once, and
    [id_counter] is the number of embeddings added. *)
Theorem add_batches_ids (dim : Z) (ty : string)
    (batches : list (list Vector * list Doc)) :
  batches ≠ [] →
  ∃ i : index,
    index_ (add_batches batches (init dim ty)) = Some i ∧
    id_counter (add_batches batches (init dim ty))
      = Z.of_nat (length (concat (fst <$> batches))) ∧
    added_ids i = seqZ 0 (id_counter (add_batches batches (init dim ty))) ∧
    NoDup (added_ids i).
Proof.
  intros Hne.
  destruct (add_batches_invariant dim ty batches) as (_ & _ & Hcnt & Hidx).
  destruct (index_ _) as [i|]; [|done].
  destruct Hidx as [Hids _]. exists i. split_and!; [done..|].
  rewrite Hids. apply NoDup_seqZ.
Qed.

(** X10: the IVF index that [add_embeddings] creates on a new store has 4
    clusters, however many embeddings the first and the later batches
    bring: [id_counter] is still 0 when the index is created. *)
Theorem fresh_ivf_index_clusters (dim : Z)
    (batches : list (list Vector * list Doc)) :
  batches ≠ [] →
  ∃ i : index,
    index_ (add_batches batches (init dim "IVF")) = Some i ∧
    clusters i = Some 4.
Proof.
  intros Hne.
  destruct (add_batches_invariant dim "IVF" batches) as (_ & _ & _ & Hidx).
  destruct (index_ _) as [i|]; [|done].
  destruct Hidx as [_ Hcl]. exists i. by split; [|apply Hcl].
Qed.

(** X11: adding a batch with no more documents than embeddings stores document
    [i] under [id_counter + i], leaves every document stored before in
    place, and keeps all stored ids below [id_counter]. *)
Theorem add_embeddings_documents (embeddings : list Vector)
    (documents : list Doc) (self : t) :
  ids_in_range self →
  (length documents ≤ length embeddings)%nat →
  ids_in_range (add_embeddings embeddings documents self) ∧
  (∀ (k : Z) (doc : Doc),
     document_store self !! k = Some doc →
     document_store (add_embeddings embeddings documents self) !! k = Some doc) ∧
  (∀ (i : nat) (doc : Doc),
     documents !! i = Some doc →
     document_store (add_embeddings embeddings documents self)
       !! (id_counter self + Z.of_nat i) = Some doc).
Proof.
  intros [Hpos Hinv] Hlen.
  assert (document_store (add_embeddings embeddings documents self)
          = store_documents (id_counter self) documents (document_store self))
    as Hstore by (unfold OptimizedVectorStore.add_embeddings; by destruct (index_ self)).
  assert (id_counter (add_embeddings embeddings documents self)
          = id_counter self + Z.of_nat (length embeddings))
    as Hcnt by (unfold OptimizedVectorStore.add_embeddings; by destruct (index_ self)).
  split_and!.
  - split; [lia|].
    intros k. rewrite Hstore, Hcnt, store_documents_lookup.
    case_decide; [lia|]. intros Hk%Hinv. lia.
  - intros k doc Hk. rewrite Hstore, store_documents_lookup.
    rewrite decide_False; [done|].
    assert (0 ≤ k < id_counter self) by (apply Hinv; by eexists). lia.
  - intros i doc Hi. rewrite Hstore, store_documents_lookup.
    apply lookup_lt_Some in Hi as Hlt.
    rewrite decide_True by lia.
    by replace (Z.to_nat (id_counter self + Z.of_nat i - id_counter self))
      with i by lia.
Qed.

(** X12: [search] fails without an index; with one, every document it returns
    is a stored one, found under an id other than -1 that the index
    reported, and is not an empty one. *)
Theorem search_returns_stored (query : Vector) (top_k : Z) (self : t) :
  (index_ self = None ↔ search query top_k self = inl AttributeError) ∧
  ∀ (i : index) (doc : Doc) (distance : Distance),
    index_ self = Some i →
    (∃ results, search query top_k self = inr results ∧
                (doc, distance) ∈ results) →
    ∃ (idx : Z) (d : Distance),
      (d, idx) ∈ index_search i (astype_float32 query) top_k ∧
      idx ≠ -1 ∧ document_store self !! idx = Some doc ∧
      truthy doc = true ∧ distance = float d.
Proof.
  unfold OptimizedVectorStore.search. split.
  - by destruct (index_ self).
  - intros i doc distance -> (results & [= <-] & Hin).
    apply list_elem_of_omap in Hin as ([d idx] & Hin & Hsome).
    exists idx, d. case_decide as Hidx; [|done].
    destruct (document_store self !! idx) as [doc'|]; [|done].
    destruct (truthy doc') eqn:Ht; [|done].
    by simplify_eq.
Qed.

End vector_store_facts.

Lemma add_batches_ids_witness :
  ∃ i : OptimizedVectorStore.index (Vector:=Z),
    OptimizedVectorStore.index_
      (OptimizedVectorStore.add_batches (Doc:=string) (λ _, false) id
         [([1; 2; 3], ["a"; "b"; "c"]); ([4; 5], ["d"; "e"])]
         (OptimizedVectorStore.init 1536 "IVF")) = Some i ∧
    OptimizedVectorStore.added_ids i = [0; 1; 2; 3; 4].
Proof.
  destruct (add_batches_ids (Doc:=string) (λ _, false) id 1536 "IVF"
              [([1; 2; 3], ["a"; "b"; "c"]); ([4; 5], ["d"; "e"])])
    as (i & Hi & _ & Hids & _); [done|].
  exists i. split; [exact Hi|]. rewrite Hids. reflexivity.
Defined.

Lemma fresh_ivf_index_clusters_witness :
  ∃ i : OptimizedVectorStore.index (Vector:=Z),
    OptimizedVectorStore.index_
      (OptimizedVectorStore.add_batches (Doc:=string) (λ _, false) id
         [(seqZ 0 5000, [])] (OptimizedVectorStore.init 1536 "IVF")) = Some i ∧
    OptimizedVectorStore.clusters i = Some 4.
Proof.
  apply (fresh_ivf_index_clusters (Doc:=string) (λ _, false) id 1536
           [(seqZ 0 5000, [])]).
  done.
Defined.

Lemma add_embeddings_documents_witness :
  OptimizedVectorStore.document_store
    (OptimizedVectorStore.add_embeddings (Vector:=Z) (λ _, false) id
       [1; 2] ["a"; "b"] (OptimizedVectorStore.init 1536 "Flat")) !! 1
  = Some "b".
Proof.
  destruct (add_embeddings_documents (Vector:=Z) (λ _, false) id
              [1; 2] ["a"; "b"] (OptimizedVectorStore.init 1536 "Flat"))
    as (_ & _ & Hdoc).
  - split; [done|]. intros k. simpl. rewrite lookup_empty. by intros [? ?].
  - simpl. lia.
  - exact (Hdoc 1%nat "b" eq_refl).
Defined.

Section scheduler_facts.
Import CosineAnnealingWarmRestarts.
Context {F : Type} (anneal : F → F → Z → Z → F) (anneal_end : F → F → F).

Local Abbreviation step := (step anneal anneal_end).
Local Abbreviation steps := (steps anneal anneal_end).

Lemma assign_lrs_same_length (groups lrs : list F) :
  length groups = length lrs → assign_lrs groups lrs = lrs.
Proof.
  revert lrs. induction groups as [|g groups IH]; intros [|lr lrs] Hlen;
    simpl in *; try done. f_equal. apply IH. lia.
Qed.

Lemma steps_snoc epochs epoch (self : t) :
  steps (epochs ++ [epoch])%list self = step epoch (steps epochs self).
Proof. unfold CosineAnnealingWarmRestarts.steps. by rewrite foldl_app. Qed.

(** What a run of steps keeps. *)
Lemma steps_invariant (optimizer : list F) (T0 Tmult : Z) (eta : F) (last : Z)
    (epochs : list (option Z)) :
  1 ≤ T0 → 1 ≤ Tmult → -1 ≤ last < T0 →
  let s := steps epochs (init optimizer T0 Tmult eta last) in
  base_lrs s = optimizer ∧ eta_min s = eta ∧ T_mult s = Tmult ∧
  length (param_groups s) = length optimizer ∧
  T0 ≤ T_i s ∧
  (epochs = [] → T_cur s = last) ∧
  (epochs ≠ [] → 0 ≤ T_cur s < T_i s).
Proof.
  intros HT0 Hmult Hlast.
  induction epochs as [|epoch epochs IH] using rev_ind; simpl.
  - by split_and!.
  - rewrite steps_snoc.
    destruct IH as (Hb & He & Hm & Hlen & HTi & Hnil & Hcons).
    set (s := steps epochs _) in *.
    unfold CosineAnnealingWarmRestarts.step. simpl. rewrite Z.geb_leb.
    rewrite Hb, He, Hm.
    assert (-1 ≤ T_cur s < T_i s) as Hcur.
    { destruct epochs as [|e es]; [rewrite Hnil by done; lia|].
      specialize (Hcons ltac:(done)). lia. }
    split_and!; try done.
    + rewrite assign_lrs_same_length; unfold get_lr; simpl;
        repeat case_match; rewrite ?Hb, ?length_fmap; done.
    + case_match; nia.
    + intros Habs. by destruct epochs.
    + intros _. destruct (Z.leb_spec (T_i s) (T_cur s + 1)); nia.
Qed.



End scheduler_facts.



Section efficientnet_facts.
Import EfficientNet.
Context {Float : Type}.
Context (falsy : Float → bool)
        (scaled_filters : Z → Float → Z)
        (scaled_repeats : Z → Float → Z)
        (quarter : Float).

Local Abbreviation _round_filters := (_round_filters falsy scaled_filters).
Local Abbreviation _round_repeats := (_round_repeats falsy scaled_repeats).
Local Abbreviation _make_blocks :=
  (_make_blocks falsy scaled_filters scaled_repeats quarter).
Local Abbreviation stage_blocks :=
  (stage_blocks falsy scaled_filters scaled_repeats quarter).

Lemma chain_app (a b c : Z) (l1 l2 : list (@MBConvBlock Float)) :
  chain a l1 b → chain b l2 c → chain a (l1 ++ l2)%list c.
Proof.
  induction 1 as [block|block blocks b' _ IH]; intros Hl2; simpl.
  - by constructor.
  - constructor. by apply IH.
Qed.

Lemma chain_lookup (a b : Z) (l : list (@MBConvBlock Float)) :
  chain a l b →
  (∃ first, head l = Some first ∧ in_channels first = a) ∧
  (∃ final, last l = Some final ∧ out_channels final = b) ∧
  ∀ (i : nat) b1 b2,
    l !! i = Some b1 → l !! S i = Some b2 → out_channels b1 = in_channels b2.
Proof.
  induction 1 as [block|block blocks b' Hc (Hhd & Hlast & Hadj)].
  - split_and!; [by eexists..|]. intros [|i] b1 b2; simpl; [done|].
    by rewrite lookup_nil.
  - split_and!.
    + by eexists.
    + destruct Hlast as (final & Hf & Hout). exists final. split; [|done].
      destruct blocks; [done|]. done.
    + intros [|i] b1 b2; simpl.
      * intros [= <-] Hb2. destruct Hhd as (first & Hf & Hin).
        rewrite <-head_lookup in Hb2. by simplify_eq.
      * apply Hadj.
Qed.

Lemma chain_stage (w d : Float) (k i o e s r : Z) :
  chain (_round_filters i w) (stage_blocks w d (k, i, o, e, s, r)) (_round_filters o w).
Proof.
  unfold EfficientNet.stage_blocks.
  set (blk := new_block (_round_filters o w) _ _ _ _ _).
  set (first := new_block (_round_filters i w) _ _ _ _ _).
  assert (∀ n, chain (_round_filters o w) (replicate (S n) blk) (_round_filters o w))
    as Hrep.
  { induction n as [|n IH]; [apply (chain_one blk)|].
    apply (chain_cons blk). exact IH. }
  destruct (Z.to_nat _) as [|n].
  - apply (chain_one first).
  - apply (chain_cons first). apply Hrep.
Qed.

Lemma make_blocks_stages (w d : Float) :
  _make_blocks w d
  = (stage_blocks w d (3, 32, 16, 1, 1, 1) ++ stage_blocks w d (3, 16, 24, 6, 2, 2) ++
     stage_blocks w d (5, 24, 40, 6, 2, 2) ++ stage_blocks w d (3, 40, 80, 6, 2, 3) ++
     stage_blocks w d (5, 80, 112, 6, 1, 3) ++ stage_blocks w d (5, 112, 192, 6, 2, 4) ++
     stage_blocks w d (3, 192, 320, 6, 1, 1))%list.
Proof. unfold EfficientNet._make_blocks, blocks_args. simpl. by rewrite app_nil_r. Qed.


Lemma stage_length (w d : Float) (k i o e s r : Z) :
  length (stage_blocks w d (k, i, o, e, s, r))
  = Z.to_nat (Z.max 1 (_round_repeats r d)).
Proof. unfold EfficientNet.stage_blocks. simpl. rewrite length_replicate. lia. Qed.


Lemma stage_strides (w d : Float) (k i o e s r : Z) :
  Forall (λ b, stride b = 1 ∨ stride b = s) (stage_blocks w d (k, i, o, e, s, r)) ∧
  length (filter (λ b, stride b ≠ 1) (stage_blocks w d (k, i, o, e, s, r)))
  = (if decide (s ≠ 1) then 1%nat else 0%nat) ∧
  (length (filter (λ b, use_residual b = false) (stage_blocks w d (k, i, o, e, s, r)))
   ≤ 1)%nat.
Proof.
  unfold EfficientNet.stage_blocks.
  set (blk := new_block (_round_filters o w) _ _ _ _ _).
  set (n := Z.to_nat _).
  split_and!.
  - constructor; [by right|]. apply Forall_replicate. by left.
  - rewrite filter_cons. simpl.
    assert (filter (λ b : MBConvBlock, stride b ≠ 1) (replicate n blk) = []) as ->.
    { induction n as [|n IH]; [done|]. simpl.
      rewrite filter_cons_False by (simpl; tauto). done. }
    by repeat case_decide.
  - rewrite filter_cons.
    assert (filter (λ b : MBConvBlock, use_residual b = false) (replicate n blk) = [])
      as ->.
    { induction n as [|n IH]; [done|]. simpl.
      rewrite filter_cons_False; [done|]. simpl. by rewrite Z.eqb_refl. }
    case_decide; simpl; lia.
Qed.


End efficientnet_facts.

Section safety_monitor_facts.
Import SafetyMonitor.
Context {Float Input Prediction Tensor : Type}.
Context (float_lt : Float → Float → bool)
        (default_min_confidence : Float)
        (drift_exceeds : list Float → list Float → bool)
        (_is_outlier : Input → bool)
        (inf_tensor : Tensor).

Local Abbreviation safety_check :=
  (safety_check (Prediction:=Prediction) float_lt default_min_confidence
     drift_exceeds _is_outlier inf_tensor).
Local Abbreviation safety_checks :=
  (safety_checks (Prediction:=Prediction) float_lt default_min_confidence
     drift_exceeds _is_outlier inf_tensor).

(** X18: every report has one required action per warning, three at most;
    it is unsafe exactly when it carries the drift warning, and that needs
    a history of a hundred checks or more. *)
Theorem safety_check_report (input_data : Input) (p : Prediction) (c : Float)
    (self : t) :
  length (warnings (safety_check input_data p c self).1)
  = length (actions_required (safety_check input_data p c self).1) ∧
  (length (warnings (safety_check input_data p c self).1) ≤ 3)%nat ∧
  (safe (safety_check input_data p c self).1 = false ↔
   "Data drift detected" ∈ warnings (safety_check input_data p c self).1) ∧
  (safe (safety_check input_data p c self).1 = false →
   (100 ≤ length (prediction_history self))%nat) ∧
  length (prediction_history (safety_check input_data p c self).2)
  = S (length (prediction_history self)).
Proof.
  unfold SafetyMonitor.safety_check, _detect_data_drift. simpl.
  assert (∀ ws : list string,
            Forall (λ w, w ≠ "Data drift detected") ws →
            false = false ↔ "Data drift detected" ∈ (ws ++ ["Data drift detected"])%list)
    as Hdrift.
  { intros ws _. split; [intros _|done]. apply elem_of_app. right. by left. }
  assert (∀ ws : list string,
            Forall (λ w, w ≠ "Data drift detected") ws →
            true = false ↔ "Data drift detected" ∈ ws) as Hnone.
  { intros ws Hws. split; [done|]. intros Hin.
    rewrite Forall_forall in Hws. by destruct (Hws _ Hin). }
  destruct (float_lt c _), (_is_outlier input_data);
    destruct (Z.ltb_spec (Z.of_nat (length (prediction_history self))) 100);
    try destruct (drift_exceeds _ _); simpl;
    (split_and!;
     [done|lia| |first [done|lia]|rewrite length_app; simpl; lia]);
    first [ apply (Hnone _); by repeat constructor
          | apply (Hdrift [_]); by repeat constructor
          | apply (Hdrift []); by repeat constructor
          | split; [intros _|done];
            rewrite !elem_of_cons; auto ].
Qed.

(** X19: a new monitor reports [safe] for its first hundred checks,
    whatever the inputs and confidences: drift is looked for only once the
    history holds a hundred entries, and every check adds one. *)
Theorem safety_checks_warm_up (thresholds : gmap string Float)
    (calls : list (Input * Prediction * Float)) :
  (length calls ≤ 100)%nat →
  Forall (λ r, safe r = true) (safety_checks calls (init thresholds)).1 ∧
  length (safety_checks calls (init thresholds)).1 = length calls ∧
  length (prediction_history (safety_checks calls (init thresholds)).2)
  = length calls.
Proof.
  assert (∀ (self : t) calls,
            (length (prediction_history self) + length calls ≤ 100)%nat →
            Forall (λ r, safe r = true) (safety_checks calls self).1 ∧
            length (safety_checks calls self).1 = length calls ∧
            length (prediction_history (safety_checks calls self).2)
            = (length (prediction_history self) + length calls)%nat) as Hgen.
  { intros self cs. revert self.
    induction cs as [|[[input_data p] c] cs IH]; intros self Hlen;
      cbn [SafetyMonitor.safety_checks length] in *.
    - split_and!; [constructor|done|simpl; lia].
    - destruct (safety_check_report input_data p c self)
        as (_ & _ & _ & Hsafe & Hhist).
      destruct (safety_check input_data p c self) as [r self'].
      cbn [fst snd] in *.
      destruct (IH self') as (Hall & Hrs & Hh); [lia|].
      destruct (safety_checks cs self') as [rs self''].
      cbn [fst snd length] in *.
      split_and!; [|lia|lia].
      constructor; [|done].
      destruct (safe r); [done|]. specialize (Hsafe eq_refl). lia. }
  intros Hlen. apply (Hgen (init thresholds) calls). simpl. lia.
Qed.

End safety_monitor_facts.

Lemma safety_checks_warm_up_witness :
  Forall (λ r, SafetyMonitor.safe r = true)
    (SafetyMonitor.safety_checks (Input:=Z) (Prediction:=string)
       Z.ltb 70 (λ _ _, true) (λ _, true) tt
       [(1, "positive", 10); (2, "negative", 99)]
       (SafetyMonitor.init ∅)).1.
Proof.
  destruct (safety_checks_warm_up (Input:=Z) (Prediction:=string)
              Z.ltb 70 (λ _ _, true) (λ _, true) tt ∅
              [(1, "positive", 10); (2, "negative", 99)]) as [Hsafe _].
  - simpl. lia.
  - exact Hsafe.
Defined.

Section cell_facts.
Import Cell.
Context {Tensor Weight : Type}.
Context (run_preprocess : preprocess → Tensor → Tensor)
        (run_op : MixedOp → Tensor → Weight → Tensor)
        (tensor_sum : list Tensor → Tensor)
        (cat : list Tensor → Tensor).

Local Abbreviation step_terms := (step_terms run_op).
Local Abbreviation forward_loop := (forward_loop run_op tensor_sum).
Local Abbreviation forward := (forward run_preprocess run_op tensor_sum cat).

(** The number of ops of a cell of [n] steps: 2 + 3 + ... + (n + 1). *)
Lemma ops_length (C : Z) (r : bool) (n : nat) :
  (2 * length (concat (step_ops C r <$> seq 0 n)) = n * (n + 3))%nat.
Proof.
  induction n as [|n IH]; [done|].
  rewrite seq_S, fmap_app, concat_app, length_app.
  change (concat (step_ops C r <$> [(0 + n)%nat]))
    with (step_ops C r n ++ [])%list.
  rewrite app_nil_r. unfold step_ops at 2.
  rewrite length_fmap, length_seq. nia.
Qed.

Lemma step_terms_spec (ops : list MixedOp) (weights : list Weight)
    (offset : nat) (states : list Tensor) :
  match step_terms ops weights offset states with
  | inr terms => length terms = length states
  | inl e => True
  end ∧
  (is_Some (match step_terms ops weights offset states with
            | inr terms => Some terms | inl _ => None end) ↔
   states = [] ∨
   (offset + length states ≤ length ops ∧
    offset + length states ≤ length weights)%nat).
Proof.
  revert offset. induction states as [|h states IH]; intros offset; simpl.
  - split; [done|]. split; [by left|by eexists].
  - destruct (ops !! offset) as [op|] eqn:Hop.
    2:{ apply lookup_ge_None in Hop. split; [done|].
        split; [by intros [? ?]|]. intros [?|[? ?]]; [done|lia]. }
    destruct (weights !! offset) as [w|] eqn:Hw.
    2:{ apply lookup_ge_None in Hw. split; [done|].
        split; [by intros [? ?]|]. intros [?|[? ?]]; [done|lia]. }
    apply lookup_lt_Some in Hop, Hw.
    destruct (IH (S offset)) as [Hlen Hiff].
    destruct (Cell.step_terms run_op ops weights (S offset) states) as [e|terms].
    + split; [done|]. split; [by intros [? ?]|].
      intros [?|[? ?]]; [done|].
      assert (is_Some (None : option (list Tensor))) as [? ?]; [|done].
      apply Hiff. right. lia.
    + split; [simpl; lia|]. split; [intros _; right|by eexists].
      destruct Hiff as [[->|[? ?]] _]; [by eexists|simpl; lia|simpl; lia].
Qed.

Lemma step_terms_ok (ops : list MixedOp) (weights : list Weight)
    (offset : nat) (states : list Tensor) :
  (offset + length states ≤ length ops)%nat →
  (offset + length states ≤ length weights)%nat →
  ∃ terms, step_terms ops weights offset states = inr terms.
Proof.
  intros Hops Hw. destruct (step_terms_spec ops weights offset states) as [_ Hiff].
  destruct (Cell.step_terms run_op ops weights offset states) as [e|terms];
    [|by eexists].
  destruct (proj2 Hiff) as [? ?]; [right; lia|done].
Qed.

Lemma step_terms_error (ops : list MixedOp) (weights : list Weight)
    (offset : nat) (states : list Tensor) :
  states ≠ [] →
  (length ops < offset + length states ∨
   length weights < offset + length states)%nat →
  step_terms ops weights offset states = inl IndexError.
Proof.
  intros Hne Hshort.
  destruct (step_terms_spec ops weights offset states) as [_ Hiff].
  destruct (Cell.step_terms run_op ops weights offset states) as [[]|terms];
    [done|].
  destruct (proj1 Hiff) as [?|[? ?]]; [by eexists|done|lia].
Qed.

Lemma rows_read_closed (steps n : nat) :
  (2 * rows_read steps n = steps * (2 * n + steps) - steps)%nat.
Proof.
  revert n. induction steps as [|steps IH]; intros n; [done|].
  cbn [rows_read]. pose proof (IH (S n)). nia.
Qed.

Lemma forward_loop_spec (steps : nat) (ops : list MixedOp)
    (weights : list Weight) (offset : nat) (states : list Tensor) :
  states ≠ [] →
  if decide (steps = 0%nat ∨
             (offset + rows_read steps (length states) ≤ length ops ∧
              offset + rows_read steps (length states) ≤ length weights)%nat)
  then ∃ final, forward_loop steps ops weights offset states = inr final ∧
                length final = (length states + steps)%nat ∧
                states `prefix_of` final
  else forward_loop steps ops weights offset states = inl IndexError.
Proof.
  revert offset states. induction steps as [|steps IH]; intros offset states Hne.
  - rewrite decide_True by (by left).
    exists states. split_and!; [done|lia|done].
  - cbn [Cell.forward_loop rows_read].
    assert (0 < length states)%nat by (destruct states; [done|simpl; lia]).
    pose proof (rows_read_closed steps (S (length states))) as Hclosed.
    destruct (decide (offset + length states ≤ length ops ∧
                      offset + length states ≤ length weights)%nat)
      as [[Ho Hw]|Hshort].
    + destruct (step_terms_ok ops weights offset states Ho Hw) as [terms ->].
      specialize (IH (offset + length states)%nat
                    (states ++ [tensor_sum terms])%list).
      rewrite length_app in IH. simpl in IH.
      replace (length states + 1)%nat with (S (length states)) in IH by lia.
      destruct (decide (S steps = 0%nat ∨ _)) as [[?|Hall]|Hnot]; [done| |].
      * rewrite decide_True in IH by (right; lia).
        destruct IH as (final & Hf & Hlen & Hpre); [by destruct states|].
        exists final. split_and!; [done|lia|].
        etrans; [|exact Hpre]. by apply prefix_app_r.
      * rewrite decide_False in IH.
        -- apply IH. by destruct states.
        -- intros [->|?]; [|apply Hnot; right; lia].
           apply Hnot. right. simpl. lia.
    + rewrite decide_False.
      * rewrite step_terms_error; [done|done|lia].
      * intros [?|?]; [done|lia].
Qed.

Lemma step_ops_tail_stride (C : Z) (r : bool) (a n : nat) :
  (2 ≤ a)%nat →
  filter (λ op, op_stride op = 2)
    ((λ j : nat, mk_op C (if r && bool_decide (j < 2)%nat then 2 else 1))
     <$> seq a n) = [].
Proof.
  revert a. induction n as [|n IH]; intros a Ha; [done|].
  simpl. rewrite filter_cons_False; [apply IH; lia|].
  simpl. rewrite bool_decide_eq_false_2 by lia. by rewrite andb_false_r.
Qed.

(** X20: a cell of [steps] steps holds [steps * (steps + 3) / 2] mixed
    ops, all on [C] channels; in a reduction cell the two first ops of each
    step have stride 2, [2 * steps] ops in all, and every other op, and
    every op of a normal cell, has stride 1. *)
Theorem cell_ops_count (steps multiplier C_prev_prev C_prev C : Z)
    (reduction reduction_prev : bool) :
  0 ≤ steps →
  2 * Z.of_nat (length (_ops (init steps multiplier C_prev_prev C_prev C
                                reduction reduction_prev)))
  = steps * (steps + 3) ∧
  Forall (λ op, op_C op = C ∧ (op_stride op = 1 ∨ op_stride op = 2))
    (_ops (init steps multiplier C_prev_prev C_prev C reduction reduction_prev)) ∧
  Z.of_nat (length (filter (λ op, op_stride op = 2)
                      (_ops (init steps multiplier C_prev_prev C_prev C
                               reduction reduction_prev))))
  = if reduction then 2 * steps else 0.
Proof.
  intros Hsteps. unfold init. cbn [_ops].
  split_and!.
  - pose proof (ops_length C reduction (Z.to_nat steps)). nia.
  - apply Forall_concat, Forall_fmap, Forall_forall. intros i _.
    unfold step_ops. apply Forall_fmap, Forall_forall. intros j _. simpl.
    split; [done|]. destruct (_ && _); auto.
  - assert (∀ n, length (filter (λ op, op_stride op = 2)
                           (concat (step_ops C reduction <$> seq 0 n)))
                 = if reduction then (2 * n)%nat else 0%nat) as Hcount.
    { induction n as [|n IH]; [by destruct reduction|].
      rewrite seq_S, fmap_app, concat_app, filter_app, length_app, IH.
      change (concat (step_ops C reduction <$> [(0 + n)%nat]))
        with (step_ops C reduction n ++ [])%list.
      rewrite app_nil_r. unfold step_ops.
      change (seq 0 (2 + n)) with (0 :: 1 :: seq 2 n)%nat.
      rewrite !fmap_cons.
      pose proof (step_ops_tail_stride C reduction 2 n ltac:(lia)) as Hrest.
      rewrite !filter_cons, Hrest. simpl.
      destruct reduction; simpl; lia. }
    rewrite Hcount. destruct reduction; lia.
Qed.

(** X21: [forward] reads the ops and the rows of [weights] at the indices
    0 to [steps * (steps + 3) / 2 - 1], the ops the constructor made: on a
    cell with a step or more it raises [IndexError] when [weights] has
    fewer rows than that, and returns otherwise; a cell without steps
    returns whatever [weights] holds. *)
Theorem cell_forward_rows (steps multiplier C_prev_prev C_prev C : Z)
    (reduction reduction_prev : bool) (s0 s1 : Tensor) (weights : list Weight) :
  (steps ≤ 0 ∨ steps * (steps + 3) ≤ 2 * Z.of_nat (length weights) →
   ∃ out, forward (init steps multiplier C_prev_prev C_prev C
                     reduction reduction_prev) s0 s1 weights = inr out) ∧
  (0 < steps ∧ 2 * Z.of_nat (length weights) < steps * (steps + 3) →
   forward (init steps multiplier C_prev_prev C_prev C
              reduction reduction_prev) s0 s1 weights = inl IndexError).
Proof.
  unfold Cell.forward, init. cbn [_steps _ops _multiplier preprocess0 preprocess1].
  set (ops := concat _).
  set (st0 := run_preprocess _ s0). set (st1 := run_preprocess _ s1).
  pose proof (ops_length C reduction (Z.to_nat steps)) as Hops. fold ops in Hops.
  pose proof (rows_read_closed (Z.to_nat steps) 2) as Hrows.
  pose proof (forward_loop_spec (Z.to_nat steps) ops weights 0 [st0; st1]) as Hloop.
  cbn [length] in Hloop.
  split.
  - intros Hok.
    rewrite decide_True in Hloop by (destruct Hok; [left; lia|right; nia]).
    destruct Hloop as (final & -> & _); [done|]. by eexists.
  - intros [Hpos Hshort]. rewrite decide_False in Hloop.
    + by rewrite Hloop.
    + intros [?|[_ ?]]; [lia|nia].
Qed.

End cell_facts.

Lemma cell_ops_count_witness :
  length (Cell._ops (Cell.init 4 4 48 48 16 true false)) = 14%nat ∧
  length (filter (λ op, Cell.op_stride op = 2)
            (Cell._ops (Cell.init 4 4 48 48 16 true false))) = 8%nat.
Proof.
  destruct (cell_ops_count 4 4 48 48 16 true false) as (Hlen & _ & Hred); [lia|].
  split; lia.
Defined.

Section embedded_facts.
Import Mdx Listing IsoDate Embedded.

Lemma published_inj_posts_and_embedded p q :
  p ∈ posts_and_embedded → q ∈ posts_and_embedded →
  published p = published q → p = q.
Proof.
  intros Hp Hq. unfold posts_and_embedded, posts in Hp, Hq. simpl in Hp, Hq.
  each_member Hp; each_member Hq; first [done|by vm_compute].
Qed.

(** X22: the second document of [quick-start.mdx] has a title, a summary
    and a [publishedAt] of its own, 2025-01-30, a date of the calendar that
    none of the seven posts has.  Read as an eighth post it stands second
    in every enumeration that is in descending order of [publishedAt],
    after the post of 2025-02-02: there is one such enumeration. *)
Theorem embedded_document_order (l : list MdxFile) :
  l ≡ₚ posts_and_embedded → Sorted newer_eq l →
  (∃ t s : string,
     title ai_ethics = Some t ∧ summary ai_ethics = Some s ∧ t ≠ "" ∧ s ≠ "") ∧
  publishedAt ai_ethics = Some "2025-01-30" ∧
  parse "2025-01-30" = Some (IsoDate.mk 2025 1 30) ∧
  Forall (λ p, publishedAt p ≠ publishedAt ai_ethics) posts ∧
  l = [post_design; ai_ethics; part_001; part_002; post_blog; part_003;
       post_work; post_quick_start].
Proof.
  intros Hl Hs. split_and!.
  - by eexists _, _.
  - reflexivity.
  - by vm_compute.
  - unfold posts. repeat constructor; by vm_compute.
  - assert (sort_posts posts_and_embedded
            = [post_design; ai_ethics; part_001; part_002; post_blog; part_003;
               post_work; post_quick_start]) as <- by (vm_compute; reflexivity).
    apply (Sorted_unique_strong newer_eq); [|done|apply Sorted_sort_by; apply _|].
    + intros p q Hp Hq Hpq Hqp. apply published_inj_posts_and_embedded.
      * by rewrite <-Hl.
      * unfold sort_posts in Hq.
        by rewrite <-(sort_by_Permutation newer_eq posts_and_embedded).
      * by apply older_eq_antisym.
    + unfold sort_posts.
      by rewrite Hl, (sort_by_Permutation newer_eq posts_and_embedded).
Qed.

End embedded_facts.

Lemma embedded_document_order_witness :
  Listing.sort_posts Embedded.posts_and_embedded
  = [Mdx.post_design; Embedded.ai_ethics; Mdx.part_001; Mdx.part_002;
     Mdx.post_blog; Mdx.part_003; Mdx.post_work; Mdx.post_quick_start].
Proof.
  destruct (embedded_document_order
              (Listing.sort_posts Embedded.posts_and_embedded))
    as (_ & _ & _ & _ & Horder).
  - apply sort_by_Permutation.
  - apply Sorted_sort_by. apply _.
  - exact Horder.
Defined.
